(** * resume-generator: the DOCX template generator ([resume_template.js])

    A shallow embedding of the rendering functions of [resume_template.js]
    and the properties of the emphasis annotator ([splitBulletWithBolds]),
    the date formatter ([formatDate]), the section builders and the
    document writers.

    Conventions of the embedding:
    - a JavaScript string is the list of its UTF-16 code units ([list N]);
      [lit] lifts an ASCII literal of the source;
    - [null]/[undefined] is [None]; a value is "truthy" when it is present
      and, for a string, non-empty;
    - the [docx] constructors ([TextRun], [ExternalHyperlink], [Paragraph])
      are records holding the option objects they are passed;
    - [String.prototype.toLowerCase] is a parameter of the emphasis section
      (its Unicode tables are the runtime's); [toLowerCaseASCII] is the
      instance used to run examples. *)

From Stdlib Require Import ZArith NArith Ascii String List Lia Bool Permutation Sorted.
From stdpp Require Import base option list gmap.
Import ListNotations.

Local Open Scope nat_scope.

(** ** JavaScript strings *)

Abbreviation jsstring := (list N).

Definition lit (s : string) : jsstring :=
  map N_of_ascii (list_ascii_of_string s).

(** Truthiness of an optional string: [undefined], [null] and [""] are falsy. *)
Definition truthy (o : option jsstring) : bool :=
  match o with
  | Some (_ :: _) => true
  | _ => false
  end.

(** [x || d] on an optional string. *)
Definition orElse (o : option jsstring) (d : jsstring) : jsstring :=
  match o with
  | Some (c :: s) => c :: s
  | _ => d
  end.

(** WhiteSpace and LineTerminator code units (ECMA-262, StrWhiteSpaceChar):
    what [trim] strips and what [parseInt] skips. *)
Definition isWhiteSpace (c : N) : bool :=
  existsb (N.eqb c)
    [9; 10; 11; 12; 13; 32; 160; 5760;
     8192; 8193; 8194; 8195; 8196; 8197; 8198; 8199; 8200; 8201; 8202;
     8232; 8233; 8239; 8287; 12288; 65279]%N.

Fixpoint trimStart (s : jsstring) : jsstring :=
  match s with
  | c :: s' => if isWhiteSpace c then trimStart s' else s
  | [] => []
  end.

Definition trimEnd (s : jsstring) : jsstring := rev (trimStart (rev s)).

Definition trim (s : jsstring) : jsstring := trimEnd (trimStart s).

(** [s.startsWith(p)] *)
Fixpoint startsWith (s p : jsstring) : bool :=
  match p, s with
  | [], _ => true
  | _ :: _, [] => false
  | c :: p', d :: s' => N.eqb c d && startsWith s' p'
  end.

(** [s.indexOf(t)]; [None] is the source's [-1]. *)
Fixpoint indexOf (s t : jsstring) : option nat :=
  if startsWith s t then Some 0
  else match s with
       | [] => None
       | _ :: s' => option_map S (indexOf s' t)
       end.

(** [s.includes(t)] *)
Definition includes (s t : jsstring) : bool :=
  match indexOf s t with Some _ => true | None => false end.

(** [s.slice(a, b)] for [0 <= a <= b] and [s.slice(a)]. *)
Definition slice (s : jsstring) (a b : nat) : jsstring := firstn (b - a) (skipn a s).
Definition sliceFrom (s : jsstring) (a : nat) : jsstring := skipn a s.

(** [arr.slice(a, b)] on an array, same clamping. *)
Definition slice_list {A} (l : list A) (a b : nat) : list A := firstn (b - a) (skipn a l).

(** [parts.join(sep)] *)
Fixpoint join (sep : jsstring) (parts : list jsstring) : jsstring :=
  match parts with
  | [] => []
  | [p] => p
  | p :: ps => p ++ sep ++ join sep ps
  end.

(** [s.split("-")]-style splitting on one code unit: never returns []. *)
Fixpoint split (sep : N) (s : jsstring) : list jsstring :=
  match s with
  | [] => [[]]
  | c :: s' =>
      if N.eqb c sep then [] :: split sep s'
      else match split sep s' with
           | p :: ps => (c :: p) :: ps
           | [] => [[c]]
           end
  end.

(** The ASCII fragment of [toLowerCase]: A-Z to a-z, code unit by code unit. *)
Definition toLowerCaseASCII (s : jsstring) : jsstring :=
  map (fun c => if (65 <=? c)%N && (c <=? 90)%N then (c + 32)%N else c) s.

(** [arr.sort(cmp)]: stable, [cmp a b > 0] puts [b] first. *)
Section Sort.
Context {A : Type} (cmp : A -> A -> Z).

Fixpoint sortInsert (x : A) (l : list A) : list A :=
  match l with
  | [] => [x]
  | y :: l' => if (0 <? cmp x y)%Z then y :: sortInsert x l' else x :: y :: l'
  end.

Definition sort (l : list A) : list A := foldr sortInsert [] l.
End Sort.

(** ** The docx document model *)

Definition FONT : jsstring := lit "Calibri".
Definition FONT_SIZE_NAME : nat := 32.
Definition FONT_SIZE_CONTACT : nat := 20.
Definition FONT_SIZE_HEADING : nat := 24.
Definition FONT_SIZE_BODY : nat := 20.

(** The option object given to [new TextRun]; an absent property is [None]. *)
Record TextRun := mkTextRun {
  text : jsstring;
  bold : option bool;
  italics : option bool;
  size : nat;
  font : jsstring;
  color : option jsstring
}.

(** A run is emphasized when it is rendered bold. *)
Definition emphasized (r : TextRun) : bool :=
  match bold r with Some true => true | _ => false end.

Inductive ParagraphChild :=
| Run (r : TextRun)
| ExternalHyperlink (link : jsstring) (children : list TextRun).

Inductive Alignment := CENTER.
Inductive HeadingLevel := HEADING_2.

Record Spacing := mkSpacing { before : option nat; after : option nat }.

Record Paragraph := mkParagraph {
  alignment : option Alignment;
  heading : option HeadingLevel;
  spacing : Spacing;
  bottomBorder : bool;
  bullet : option nat;
  children : list ParagraphChild
}.

(** ** Curated term lists *)

Definition PRIORITY_BOLD : list jsstring := map lit [
  "Azure Blob Storage"; "Azure"; "Power BI"; "Power Query"; "Power Automate";
  "Python"; "SQL"; "DAX"; "MySQL"; "ETL";
  "FLAIR"; "FOCUS"; "HMGP"; "FEMA"; "ARIMA"; "Prophet";
  "Flask"; "MongoDB"; "Selenium"; "Scikit-learn"; "LangChain";
  "Snowflake"; "PostgreSQL"; "SQL Server"; "Spark"; "Airflow";
  "Databricks"; "GCP"; "AWS"; "Docker"; "REST API"; "FastAPI"
]%string.

Definition NEVER_BOLD : gset jsstring := list_to_set (map lit [
  "SHA-256"; "KPIs"; "SLA"; "CSRF"; ".NET"; "VBA"; "Git"; "GitHub";
  "SharePoint"; "OneDrive"; "Windows Task Scheduler"; "Excel"; "JSON"; "CSV"; "XML"
]%string).

Definition SKIP_LEADERSHIP_STARTS : list jsstring := map lit [
  "Collaborated"; "Onboarded"; "Trained"; "Presented"; "Authored";
  "Led a"; "Worked with"; "Partnered"
]%string.

(** ** The emphasis annotator: [splitBulletWithBolds] *)

Record Segment := mkSegment {
  seg_text : jsstring;
  seg_bold : bool;
  startOffset : option nat
}.

(** State of the inner [for (const seg of segments)] loop. *)
Record LoopState := mkLoopState {
  newSegments : list Segment;
  didBold : bool;
  boldCount : nat
}.

Definition plainRun (t : jsstring) : TextRun :=
  mkTextRun t None None FONT_SIZE_BODY FONT None.

(** ** Dates: [formatDate] *)

Definition isDigit (c : N) : bool := (48 <=? c)%N && (c <=? 57)%N.

Fixpoint takeDigits (s : jsstring) : jsstring :=
  match s with
  | c :: s' => if isDigit c then c :: takeDigits s' else []
  | [] => []
  end.

(** Value of a string of decimal digits, most significant first. *)
Definition digitsValue (ds : jsstring) : Z :=
  fold_left (fun acc c => acc * 10 + (Z.of_N c - 48))%Z ds 0%Z.

(** [parseInt(s, 10)]: leading white space is skipped, one sign is read,
    then the longest run of decimal digits; [None] is [NaN].  The result is
    only compared with small integers, so the exact integer stands for the
    Number the runtime returns. *)
Definition parseInt (s : jsstring) : option Z :=
  let s1 := trimStart s in
  let '(sign, s2) :=
    match s1 with
    | 45%N :: r => ((-1)%Z, r)
    | 43%N :: r => (1%Z, r)
    | _ => (1%Z, s1)
    end in
  match takeDigits s2 with
  | [] => None
  | ds => Some (sign * digitsValue ds)%Z
  end.

Definition months : list jsstring := map lit [
  "Jan"; "Feb"; "Mar"; "Apr"; "May"; "Jun";
  "Jul"; "Aug"; "Sep"; "Oct"; "Nov"; "Dec"
]%string.

Definition DASH : N := 45.

Definition formatDate (dateStr : option jsstring) : jsstring :=
  match dateStr with
  | None | Some [] => lit "Present"
  | Some s =>
      let parts := split DASH s in
      if 2 <=? length parts then
        let year := nth 0 parts [] in
        match parseInt (nth 1 parts []) with
        | Some m =>
            let monthIdx := (m - 1)%Z in
            if (0 <=? monthIdx)%Z && (monthIdx <? 12)%Z
            then nth (Z.to_nat monthIdx) months [] ++ lit " " ++ year
            else s
        | None => s
        end
      else s
  end.

(** ** The render payload *)

Record Personal := mkPersonal {
  p_name : option jsstring;
  p_email : option jsstring;
  p_phone : option jsstring;
  p_linkedin : option jsstring;
  p_github : option jsstring;
  p_portfolio : option jsstring;
  p_location : option jsstring
}.

(** A bullet of the payload is a string or an object [{text, matched_keywords}]. *)
Inductive Bullet :=
| BulletString (s : jsstring)
| BulletObject (b_text : option jsstring) (matched_keywords : option (list jsstring)).

Record Job := mkJob {
  j_company : jsstring;
  j_title : jsstring;
  j_location : option jsstring;
  j_start_date : option jsstring;
  j_end_date : option jsstring;
  j_bullets : option (list Bullet)
}.

Record Project := mkProject {
  pr_name : jsstring;
  pr_github_url : option jsstring;
  pr_bullets : option (list Bullet)
}.

Record Skill := mkSkill {
  s_name : jsstring;
  s_category : option jsstring
}.

Record Certification := mkCertification {
  c_name : jsstring;
  c_issuer : option jsstring;
  c_issued : option jsstring
}.

Record Education := mkEducation {
  e_degree : jsstring;
  e_field : option jsstring;
  e_institution : jsstring;
  e_location : option jsstring;
  e_gpa : option jsstring;
  e_end_date : option jsstring
}.

(** ** Section builders *)

Definition noSpacing : Spacing := mkSpacing None None.

Definition textRun (t : jsstring) (sz : nat) : TextRun :=
  mkTextRun t None None sz FONT None.
Definition boldRun (t : jsstring) (sz : nat) : TextRun :=
  mkTextRun t (Some true) None sz FONT None.
Definition italicRun (t : jsstring) (sz : nat) : TextRun :=
  mkTextRun t None (Some true) sz FONT None.
Definition linkRun (t : jsstring) (sz : nat) : TextRun :=
  mkTextRun t None None sz FONT (Some (lit "0000FF")).

(** [s.toUpperCase()] on the ASCII section titles. *)
Definition toUpperCaseASCII (s : jsstring) : jsstring :=
  map (fun c => if (97 <=? c)%N && (c <=? 122)%N then (c - 32)%N else c) s.

Definition sectionHeading (title : jsstring) : Paragraph :=
  mkParagraph None (Some HEADING_2) (mkSpacing (Some 160) (Some 60)) true None
    [Run (boldRun (toUpperCaseASCII title) FONT_SIZE_HEADING)].

Definition EN_DASH : N := 8211.
Definition EM_DASH : N := 8212.

Definition SEP : jsstring := lit " | ".

(** [x.startsWith("http") ? x : `https://${x}`] *)
Definition withScheme (x : jsstring) : jsstring :=
  if startsWith x (lit "http") then x else lit "https://" ++ x.

Definition hyperlink (x : jsstring) : ParagraphChild :=
  ExternalHyperlink (withScheme x) [linkRun x FONT_SIZE_CONTACT].

Definition buildHeader (personal : Personal) : list Paragraph :=
  let children0 :=
    [mkParagraph (Some CENTER) None (mkSpacing None (Some 60)) false None
       [Run (boldRun (orElse (p_name personal) []) FONT_SIZE_NAME)]] in
  let contactParts0 : list jsstring := [] in
  let contactParts1 :=
    if truthy (p_location personal)
    then contactParts0 ++ [default [] (p_location personal)] else contactParts0 in
  let contactParts2 :=
    if truthy (p_phone personal)
    then contactParts1 ++ [default [] (p_phone personal)] else contactParts1 in
  let contactParts :=
    if truthy (p_email personal)
    then contactParts2 ++ [default [] (p_email personal)] else contactParts2 in
  let children1 :=
    if 0 <? length contactParts
    then children0 ++
         [mkParagraph (Some CENTER) None (mkSpacing None (Some 40)) false None
            [Run (textRun (join SEP contactParts) FONT_SIZE_CONTACT)]]
    else children0 in
  let linkParts0 : list ParagraphChild := [] in
  let linkParts1 :=
    if truthy (p_linkedin personal)
    then linkParts0 ++ [hyperlink (default [] (p_linkedin personal))] else linkParts0 in
  let linkParts2 :=
    if truthy (p_github personal)
    then (if 0 <? length linkParts1
          then linkParts1 ++ [Run (textRun SEP FONT_SIZE_CONTACT)] else linkParts1)
         ++ [hyperlink (default [] (p_github personal))]
    else linkParts1 in
  let linkParts :=
    if truthy (p_portfolio personal)
    then (if 0 <? length linkParts2
          then linkParts2 ++ [Run (textRun SEP FONT_SIZE_CONTACT)] else linkParts2)
         ++ [hyperlink (default [] (p_portfolio personal))]
    else linkParts2 in
  if 0 <? length linkParts
  then children1 ++
       [mkParagraph (Some CENTER) None (mkSpacing None (Some 120)) false None linkParts]
  else children1.

(** ** Exceptions *)

Inductive JSError :=
| TypeError (message : string)
| SystemError (code : string)
| PackerError (message : string).

Inductive Result (A : Type) :=
| Ok (a : A)
| Throw (e : JSError).
Arguments Ok {A} a.
Arguments Throw {A} e.

(** ** Plain objects used as dictionaries

    [byCategory = {}] in [buildSkills]: the own properties are kept in creation
    order; a key that is not an own property is looked up in
    [Object.prototype]; [Object.entries] lists array-index keys first, in
    ascending numeric order, then the other keys in creation order
    (ECMA-262, OrdinaryOwnPropertyKeys). *)

Abbreviation JSObject := (list (jsstring * list jsstring)).

Definition Object_prototype_keys : list jsstring := map lit [
  "constructor"; "__defineGetter__"; "__defineSetter__"; "hasOwnProperty";
  "__lookupGetter__"; "__lookupSetter__"; "isPrototypeOf";
  "propertyIsEnumerable"; "toString"; "valueOf"; "__proto__"; "toLocaleString"
]%string.

Inductive PropertyValue :=
| Undefined
| Inherited                          (* a member of Object.prototype: truthy, no [push] *)
| ArrayValue (names : list jsstring).

Fixpoint ownProperty (o : JSObject) (k : jsstring) : option (list jsstring) :=
  match o with
  | [] => None
  | (k', v) :: o' => if bool_decide (k' = k) then Some v else ownProperty o' k
  end.

(** [o[k]] *)
Definition getProperty (o : JSObject) (k : jsstring) : PropertyValue :=
  match ownProperty o k with
  | Some v => ArrayValue v
  | None => if bool_decide (k ∈ Object_prototype_keys) then Inherited else Undefined
  end.

(** [o[k] = v] for a key outside [Object.prototype], and the in-place
    mutation of the array stored under an own key. *)
Fixpoint setProperty (o : JSObject) (k : jsstring) (v : list jsstring) : JSObject :=
  match o with
  | [] => [(k, v)]
  | (k', v') :: o' =>
      if bool_decide (k' = k) then (k', v) :: o' else (k', v') :: setProperty o' k v
  end.

(** The array index a property key denotes, if any: a canonical decimal
    numeral below 2^32 - 1. *)
Definition arrayIndex (k : jsstring) : option N :=
  match k with
  | [] => None
  | c :: r =>
      if forallb isDigit k && (negb (N.eqb c 48) || (length r =? 0)) && (length k <=? 10)
      then let v := Z.to_N (digitsValue k) in
           if (v <? 4294967295)%N then Some v else None
      else None
  end.

Definition isArrayIndex (k : jsstring) : bool :=
  match arrayIndex k with Some _ => true | None => false end.

Definition indexOrder (a b : jsstring * list jsstring) : Z :=
  (Z.of_N (default 0%N (arrayIndex a.1)) - Z.of_N (default 0%N (arrayIndex b.1)))%Z.

(** [Object.entries(o)] *)
Definition Object_entries (o : JSObject) : list (jsstring * list jsstring) :=
  sort indexOrder (List.filter (fun kv => isArrayIndex kv.1) o)
  ++ List.filter (fun kv => negb (isArrayIndex kv.1)) o.

(** Body of the grouping loop of [buildSkills] (source lines 326-330). *)
Definition groupSkill (byCategory : JSObject) (skill : Skill) : Result JSObject :=
  let cat := orElse (s_category skill) (lit "Other") in
  let byCategory1 :=
    match getProperty byCategory cat with
    | Undefined => setProperty byCategory cat []
    | _ => byCategory
    end in
  match getProperty byCategory1 cat with
  | ArrayValue names => Ok (setProperty byCategory1 cat (names ++ [s_name skill]))
  | _ => Throw (TypeError "byCategory[cat].push is not a function")
  end.

Fixpoint groupSkills (byCategory : JSObject) (skills : list Skill) : Result JSObject :=
  match skills with
  | [] => Ok byCategory
  | skill :: rest =>
      match groupSkill byCategory skill with
      | Ok byCategory' => groupSkills byCategory' rest
      | Throw e => Throw e
      end
  end.

Definition skillLine (entry : jsstring * list jsstring) : Paragraph :=
  let '(category, names) := entry in
  mkParagraph None None (mkSpacing (Some 40) (Some 40)) false None
    [Run (boldRun (category ++ lit ": ") FONT_SIZE_BODY);
     Run (textRun (join (lit ", ") names) FONT_SIZE_BODY)].

Definition buildSkills (skills : list Skill) : Result (list Paragraph) :=
  if length skills =? 0 then Ok []
  else
    match groupSkills [] skills with
    | Ok byCategory =>
        Ok (sectionHeading (lit "Technical Skills") :: map skillLine (Object_entries byCategory))
    | Throw e => Throw e
    end.

Definition buildCertifications (certifications : list Certification) : list Paragraph :=
  if length certifications =? 0 then []
  else
    sectionHeading (lit "Certifications") ::
    map (fun cert =>
      let parts0 := [c_name cert] in
      let parts1 :=
        if truthy (c_issuer cert) then parts0 ++ [default [] (c_issuer cert)] else parts0 in
      let parts :=
        if truthy (c_issued cert) then parts1 ++ [formatDate (c_issued cert)] else parts1 in
      mkParagraph None None (mkSpacing None (Some 40)) false (Some 0)
        [Run (textRun (join (lit " " ++ [EM_DASH] ++ lit " ") parts) FONT_SIZE_BODY)])
      certifications.

Definition educationEntry (edu : Education) : list Paragraph :=
  let degreeLine :=
    if truthy (e_field edu)
    then e_degree edu ++ lit " in " ++ default [] (e_field edu)
    else e_degree edu in
  let rightPart0 : list jsstring := [] in
  let rightPart1 :=
    if truthy (e_end_date edu) then rightPart0 ++ [formatDate (e_end_date edu)] else rightPart0 in
  let rightPart :=
    if truthy (e_gpa edu)
    then rightPart1 ++ [lit "GPA: " ++ default [] (e_gpa edu)] else rightPart1 in
  let institutionParts0 := [e_institution edu] in
  let institutionParts :=
    if truthy (e_location edu)
    then institutionParts0 ++ [default [] (e_location edu)] else institutionParts0 in
  [mkParagraph None None (mkSpacing (Some 80) (Some 20)) false None
     [Run (boldRun degreeLine FONT_SIZE_BODY);
      Run (textRun (if 0 <? length rightPart then SEP ++ join SEP rightPart else [])
             FONT_SIZE_BODY)];
   mkParagraph None None (mkSpacing None (Some 40)) false None
     [Run (italicRun (join (lit ", ") institutionParts) FONT_SIZE_BODY)]].

Definition buildEducation (education : list Education) : list Paragraph :=
  if length education =? 0 then []
  else sectionHeading (lit "Education") :: flat_map educationEntry education.

Definition buildSummary (summary : option jsstring) : list Paragraph :=
  if truthy summary
  then [sectionHeading (lit "Professional Summary");
        mkParagraph None None (mkSpacing (Some 80) (Some 120)) false None
          [Run (textRun (default [] summary) FONT_SIZE_BODY)]]
  else [].

Section Emphasis.
Variable toLowerCase : jsstring -> jsstring.

(** The filter predicate of [termsToCheck]. *)
Definition isCandidate (matchedKeywords : option (list jsstring)) (t : jsstring) : bool :=
  negb (bool_decide (t ∈ NEVER_BOLD)) &&
  (match matchedKeywords with
   | None => true
   | Some kws =>
       (length kws =? 0) ||
       existsb (fun kw =>
                  includes (toLowerCase kw) (toLowerCase t) ||
                  includes (toLowerCase t) (toLowerCase kw)) kws
   end).

Definition push (st : LoopState) (seg : Segment) : LoopState :=
  mkLoopState (newSegments st ++ [seg]) (didBold st) (boldCount st).

(** One iteration of the inner loop (source lines 75-88). *)
Definition segStep (term : jsstring) (midpoint : nat)
    (st : LoopState) (seg : Segment) : LoopState :=
  if seg_bold seg || didBold st then push st seg
  else
    match indexOf (toLowerCase (seg_text seg)) (toLowerCase term) with
    | None => push st seg
    | Some idx =>
        let globalIdx := default 0 (startOffset seg) + idx in
        if midpoint <=? globalIdx then push st seg
        else
          let before := slice (seg_text seg) 0 idx in
          let match_ := slice (seg_text seg) idx (idx + length term) in
          let after := sliceFrom (seg_text seg) (idx + length term) in
          let so := default 0 (startOffset seg) in
          mkLoopState
            (newSegments st
               ++ (if truthy (Some before) then [mkSegment before false (Some so)] else [])
               ++ [mkSegment match_ true (Some (so + idx))]
               ++ (if truthy (Some after)
                   then [mkSegment after false (Some (so + idx + length term))] else []))
            true
            (S (boldCount st))
    end.

(** The outer [for (const term of sortedTerms)] loop with its [break]. *)
Fixpoint boldLoop (terms : list jsstring) (maxBolds midpoint : nat)
    (segments : list Segment) (boldCount0 : nat) : list Segment :=
  match terms with
  | [] => segments
  | term :: rest =>
      if maxBolds <=? boldCount0 then segments
      else
        let st := fold_left (segStep term midpoint) segments
                    (mkLoopState [] false boldCount0) in
        boldLoop rest maxBolds midpoint
          (if didBold st then newSegments st else segments)
          (boldCount st)
  end.

Definition segmentRun (seg : Segment) : TextRun :=
  mkTextRun (seg_text seg) (Some (seg_bold seg || false)) None FONT_SIZE_BODY FONT None.

Definition splitBulletWithBolds (text_ : option jsstring)
    (matchedKeywords : option (list jsstring)) (maxBolds_ : option nat) : list TextRun :=
  let maxBolds := default 2 maxBolds_ in
  match text_ with
  | None | Some [] => [plainRun []]
  | Some text =>
      let textTrimmed := trim text in
      if existsb (startsWith textTrimmed) SKIP_LEADERSHIP_STARTS then [plainRun text]
      else
        let termsToCheck := List.filter (isCandidate matchedKeywords) PRIORITY_BOLD in
        let sortedTerms :=
          sort (fun a b => Z.of_nat (length b) - Z.of_nat (length a))%Z termsToCheck in
        let midpoint := length text / 2 in
        map segmentRun
          (boldLoop sortedTerms maxBolds midpoint [mkSegment text false (Some 0)] 0)
  end.


(** The bullet loop shared by [buildExperience] and [buildProjects]. *)
Definition bulletText (b : Bullet) : jsstring :=
  match b with
  | BulletString s => s
  | BulletObject t _ => orElse t []
  end.

Definition bulletKeywords (b : Bullet) : list jsstring :=
  match b with
  | BulletString _ => []
  | BulletObject _ kws => default [] kws
  end.

Definition buildBullets (bullets : option (list Bullet)) : list Paragraph :=
  flat_map (fun b =>
    let text := bulletText b in
    let matchedKeywords := bulletKeywords b in
    if truthy (Some text)
    then [mkParagraph None None (mkSpacing None (Some 40)) false (Some 0)
            (map Run (splitBulletWithBolds (Some text) (Some matchedKeywords) None))]
    else []) (default [] bullets).

Definition dateRange (job : Job) : jsstring :=
  let startFormatted := formatDate (j_start_date job) in
  let endFormatted := formatDate (j_end_date job) in
  startFormatted ++ lit " " ++ [EN_DASH] ++ lit " " ++ endFormatted.

Definition buildExperience (jobs : list Job) : list Paragraph :=
  sectionHeading (lit "Professional Experience") ::
  flat_map (fun job =>
    [mkParagraph None None (mkSpacing (Some 120) (Some 40)) false None
       [Run (boldRun (j_company job ++ lit ", ") FONT_SIZE_BODY);
        Run (boldRun (j_title job) FONT_SIZE_BODY);
        Run (textRun (lit " | " ++ dateRange job) FONT_SIZE_BODY)]]
    ++ (if truthy (j_location job)
        then [mkParagraph None None (mkSpacing None (Some 40)) false None
                [Run (italicRun (default [] (j_location job)) FONT_SIZE_BODY)]]
        else [])
    ++ buildBullets (j_bullets job)) jobs.

Definition projectTitle (proj : Project) : Paragraph :=
  let titleParts := [Run (boldRun (pr_name proj) FONT_SIZE_BODY)] in
  mkParagraph None None (mkSpacing (Some 120) (Some 40)) false None
    (if truthy (pr_github_url proj) && startsWith (default [] (pr_github_url proj)) (lit "http")
     then titleParts
          ++ [Run (textRun (lit " " ++ [EM_DASH] ++ lit " ") FONT_SIZE_BODY)]
          ++ [ExternalHyperlink (default [] (pr_github_url proj))
                [linkRun (lit "GitHub") FONT_SIZE_BODY]]
     else titleParts).

Definition buildProjects (projects : list Project) (isCv : bool) : list Paragraph :=
  if length projects =? 0 then []
  else
    let topProjects := if isCv then projects else slice_list projects 0 3 in
    sectionHeading (lit "Projects") ::
    flat_map (fun proj => projectTitle proj :: buildBullets (pr_bullets proj)) topProjects.

End Emphasis.

(** ** Writing the document

    The generators run in Node: [Packer.toBuffer] (docx) serialises the
    document and [fs.writeFileSync] writes it.  Both belong to the runtime;
    the packer is a parameter and the file system is a finite map from paths
    to contents, written through [writeFileSync] under an outcome chosen by
    the environment. *)

Record Payload := mkPayload {
  d_personal : option Personal;
  d_summary : option jsstring;
  d_experience : option (list Job);
  d_projects : option (list Project);
  d_skills : option (list Skill);
  d_certifications : option (list Certification);
  d_education : option (list Education);
  d_content : option jsstring;
  d_date : option jsstring
}.

Record Document := mkDocument {
  margin : nat * nat * nat * nat;   (* top, right, bottom, left *)
  doc_children : list Paragraph
}.

Record World := mkWorld {
  files : gmap jsstring (list N);
  console : list jsstring
}.

(** What the operating system does with one [writeFileSync(path, data)]:
    the file is opened with flag ["w"] (created or truncated), the bytes are
    written, the file is closed. *)
Inductive WriteOutcome :=
| WriteCompletes
| OpenFails (e : JSError)
| WriteFailsAfter (written : nat) (e : JSError).

(** State and exception monad of the generators. *)
Definition IO (A : Type) : Type := World -> Result A * World.

Definition ret {A} (a : A) : IO A := fun w => (Ok a, w).

Definition bind {A B} (m : IO A) (k : A -> IO B) : IO B :=
  fun w =>
    match m w with
    | (Ok a, w') => k a w'
    | (Throw e, w') => (Throw e, w')
    end.

Definition liftResult {A} (r : Result A) : IO A := fun w => (r, w).

Notation "x <- m ;; k" := (bind m (fun x => k))
  (at level 100, m at next level, right associativity).

Definition writeFileSync (io : WriteOutcome) (path : jsstring) (data : list N) : IO unit :=
  fun w =>
    match io with
    | WriteCompletes => (Ok tt, mkWorld (<[path := data]> (files w)) (console w))
    | OpenFails e => (Throw e, w)
    | WriteFailsAfter n e => (Throw e, mkWorld (<[path := take n data]> (files w)) (console w))
    end.

Definition console_log (line : jsstring) : IO unit :=
  fun w => (Ok tt, mkWorld (files w) (console w ++ [line])).

Definition emptyPersonal : Personal := mkPersonal None None None None None None None.

Definition pageMargins : nat * nat * nat * nat := (720, 720, 720, 720).

Definition NEWLINE : N := 10.

(** [s.split(/\n\n+/)]: every maximal run of two or more newlines separates. *)
Fixpoint splitParagraphs (skipping : bool) (s : jsstring) : list jsstring :=
  match s with
  | [] => [[]]
  | c :: r =>
      if N.eqb c NEWLINE && skipping then splitParagraphs true r
      else if N.eqb c NEWLINE && match r with d :: _ => N.eqb d NEWLINE | [] => false end
      then [] :: splitParagraphs true r
      else match splitParagraphs false r with
           | p :: ps => (c :: p) :: ps
           | [] => [[c]]
           end
  end.

Section Generators.
Variable toLowerCase : jsstring -> jsstring.
Variable toBuffer : Document -> Result (list N).
Variable io : WriteOutcome.

Definition generateCoverLetter (data : Payload) (outputPath : jsstring) : IO unit :=
  let personal := default emptyPersonal (d_personal data) in
  let content := splitParagraphs false (orElse (d_content data) []) in
  let children0 :=
    [mkParagraph (Some CENTER) None (mkSpacing None (Some 60)) false None
       [Run (boldRun (orElse (p_name personal) []) FONT_SIZE_NAME)]] in
  let contactParts :=
    omap (fun o => if truthy o then o else None)
      [p_location personal; p_phone personal; p_email personal] in
  let children1 :=
    if 0 <? length contactParts
    then children0 ++
         [mkParagraph (Some CENTER) None (mkSpacing None (Some 80)) false None
            [Run (textRun (join SEP contactParts) FONT_SIZE_CONTACT)]]
    else children0 in
  let children2 :=
    if truthy (d_date data)
    then children1 ++
         [mkParagraph None None (mkSpacing None (Some 80)) false None
            [Run (textRun (default [] (d_date data)) FONT_SIZE_BODY)]]
    else children1 in
  let children :=
    children2 ++
    flat_map (fun para =>
      map (fun line =>
             mkParagraph None None (mkSpacing None (Some 60)) false None
               [Run (textRun line FONT_SIZE_BODY)])
          (split NEWLINE para)) content in
  let doc := mkDocument pageMargins children in
  buffer <- liftResult (toBuffer doc) ;;
  _ <- writeFileSync io outputPath buffer ;;
  console_log (lit "Cover letter generated: " ++ outputPath).

Definition generateResume (data : Payload) (outputPath : jsstring) : IO unit :=
  let sections0 := buildHeader (default emptyPersonal (d_personal data)) in
  let sections1 := sections0 ++ buildExperience toLowerCase (default [] (d_experience data)) in
  let sections2 := sections1 ++ buildProjects toLowerCase (default [] (d_projects data)) false in
  skills <- liftResult (buildSkills (default [] (d_skills data))) ;;
  let sections3 := sections2 ++ skills in
  let sections4 := sections3 ++ buildCertifications (default [] (d_certifications data)) in
  let sections := sections4 ++ buildEducation (default [] (d_education data)) in
  let doc := mkDocument pageMargins sections in
  buffer <- liftResult (toBuffer doc) ;;
  _ <- writeFileSync io outputPath buffer ;;
  console_log (lit "Resume generated: " ++ outputPath).

Definition generateCV (data : Payload) (outputPath : jsstring) : IO unit :=
  let sections0 := buildHeader (default emptyPersonal (d_personal data)) in
  let sections0' :=
    if truthy (d_summary data) then sections0 ++ buildSummary (d_summary data) else sections0 in
  let sections1 := sections0' ++ buildExperience toLowerCase (default [] (d_experience data)) in
  let sections2 := sections1 ++ buildProjects toLowerCase (default [] (d_projects data)) true in
  skills <- liftResult (buildSkills (default [] (d_skills data))) ;;
  let sections3 := sections2 ++ skills in
  let sections4 := sections3 ++ buildCertifications (default [] (d_certifications data)) in
  let sections := sections4 ++ buildEducation (default [] (d_education data)) in
  let doc := mkDocument pageMargins sections in
  buffer <- liftResult (toBuffer doc) ;;
  _ <- writeFileSync io outputPath buffer ;;
  console_log (lit "CV generated: " ++ outputPath).

(** [run] and the process around it: the value of [--type], the rejection
    handler of line 587 ([console.error] then [process.exit(1)]). *)
Definition run (docType : jsstring) (data : Payload) (outputFile : jsstring) : IO unit :=
  if bool_decide (docType = lit "coverletter") then generateCoverLetter data outputFile
  else if bool_decide (docType = lit "cv") then generateCV data outputFile
  else generateResume data outputFile.

Record Exit := mkExit {
  exitCode : nat;
  reported : option JSError;      (* the argument of [console.error] *)
  world : World
}.

Definition main (docType : jsstring) (data : Payload) (outputFile : jsstring)
    (w : World) : Exit :=
  match run docType data outputFile w with
  | (Ok _, w') => mkExit 0 None w'
  | (Throw err, w') => mkExit 1 (Some err) w'
  end.

End Generators.


(** * Properties *)

(** ** Observations on spans and segments *)

Definition spanTexts (spans : list TextRun) : jsstring := concat (map text spans).

Definition emphasizedCount (spans : list TextRun) : nat :=
  length (List.filter emphasized spans).

(** Character offset at which the [i]-th span starts. *)
Definition spanStart (spans : list TextRun) (i : nat) : nat :=
  length (spanTexts (take i spans)).

Definition segTexts (segs : list Segment) : jsstring := concat (map seg_text segs).

Definition boldSegments (segs : list Segment) : nat :=
  length (List.filter seg_bold segs).

(** Every plain segment records its true offset; every bold segment records
    an offset below the midpoint that is not before its true offset. *)
Fixpoint offsetsOk (midpoint off : nat) (segs : list Segment) : Prop :=
  match segs with
  | [] => True
  | seg :: rest =>
      (if seg_bold seg
       then exists k, startOffset seg = Some k /\ off <= k < midpoint
       else startOffset seg = Some off)
      /\ offsetsOk midpoint (off + length (seg_text seg)) rest
  end.

(** A lead-in phrase is solid when it neither starts nor ends with white
    space, so that trimming cannot cut into it. *)
Definition solid (p : jsstring) : bool :=
  match p, rev p with
  | c :: _, d :: _ => negb (isWhiteSpace c) && negb (isWhiteSpace d)
  | _, _ => false
  end.

(** The title a rendered paragraph carries, when it is the title line of a
    project (neither a section heading nor a bullet). *)
Definition titleOf (p : Paragraph) : option jsstring :=
  match heading p, bullet p, children p with
  | None, None, Run r :: _ => Some (text r)
  | _, _, _ => None
  end.

Definition renderedTitles (ps : list Paragraph) : list jsstring := omap titleOf ps.

(** A component of a dash-separated date holds no dash. *)
Definition noSep (sep : N) (p : jsstring) : bool :=
  forallb (fun c => negb (N.eqb c sep)) p.

(** The month component ["01"] ... ["12"]. *)
Definition twoDigits (n : nat) : jsstring :=
  [N.of_nat (48 + n / 10); N.of_nat (48 + n mod 10)].

(** The strings [formatDate] reads as a date: two or more dash-separated
    components, the second of which parses to an integer from 1 to 12. *)
Definition readsAsDate (s : jsstring) : Prop :=
  exists (year month rest : jsstring) (m : Z),
    s = year ++ DASH :: month ++ rest /\
    noSep DASH year = true /\ noSep DASH month = true /\
    (rest = [] \/ exists r, rest = DASH :: r) /\
    parseInt month = Some m /\ (1 <= m <= 12)%Z.

(** Decision procedure for [readsAsDate]. *)
Definition readsAsDateb (s : jsstring) : bool :=
  match split DASH s with
  | _ :: month :: _ =>
      match parseInt month with
      | Some m => (1 <=? m)%Z && (m <=? 12)%Z
      | None => false
      end
  | _ => false
  end.

(** The text a paragraph shows: the texts of its runs, those inside
    hyperlinks included, in order. *)
Definition childTexts (c : ParagraphChild) : list jsstring :=
  match c with
  | Run r => [text r]
  | ExternalHyperlink _ rs => map text rs
  end.

Definition paragraphText (p : Paragraph) : jsstring :=
  concat (flat_map childTexts (children p)).

(** The values of the fields that are present (not [null], [undefined] or
    empty), in order. *)
Definition present (fields : list (option jsstring)) : list jsstring :=
  omap (fun o => if truthy o then o else None) fields.

(** A line made of parts: no line at all when there is no part. *)
Definition lineOf (sep : jsstring) (parts : list jsstring) : list jsstring :=
  match parts with
  | [] => []
  | _ :: _ => [join sep parts]
  end.

(** Parts appended after a separator: nothing when there is no part. *)
Definition suffixOf (sep : jsstring) (parts : list jsstring) : jsstring :=
  match parts with
  | [] => []
  | _ :: _ => sep ++ join sep parts
  end.

(** What the two lines of an education entry show, from the fields present. *)
Definition educationTexts (edu : Education) : list jsstring :=
  [e_degree edu
     ++ concat (map (fun f => lit " in " ++ f) (present [e_field edu]))
     ++ suffixOf SEP (map (fun d => formatDate (Some d)) (present [e_end_date edu])
                      ++ map (fun g => lit "GPA: " ++ g) (present [e_gpa edu]));
   join (lit ", ") (e_institution edu :: present [e_location edu])].

(** The category a skill is filed under: its own, or ["Other"]. *)
Definition skillCategory (skill : Skill) : jsstring :=
  orElse (s_category skill) (lit "Other").

(** The distinct elements of a list, in the order in which each is first seen. *)
Fixpoint firstSeen (cats : list jsstring) : list jsstring :=
  match cats with
  | [] => []
  | c :: rest => c :: List.filter (fun x => negb (bool_decide (x = c))) (firstSeen rest)
  end.

(** The names of the skills filed under a category, in input order. *)
Definition namesIn (cat : jsstring) (skills : list Skill) : list jsstring :=
  map s_name (List.filter (fun sk => bool_decide (skillCategory sk = cat)) skills).

(** Grouping by category in first-seen order. *)
Definition firstSeenGroups (skills : list Skill) : list (jsstring * list jsstring) :=
  map (fun cat => (cat, namesIn cat skills)) (firstSeen (map skillCategory skills)).

Definition skillsSection (groups : list (jsstring * list jsstring)) : list Paragraph :=
  sectionHeading (lit "Technical Skills") :: map skillLine groups.

(** No category is the name of a property inherited from [Object.prototype]. *)
Definition ordinaryCategories (skills : list Skill) : bool :=
  forallb (fun sk => negb (bool_decide (skillCategory sk ∈ Object_prototype_keys))) skills.

(** No category is an array index. *)
Definition noIndexCategories (skills : list Skill) : bool :=
  forallb (fun sk => negb (isArrayIndex (skillCategory sk))) skills.

(** Numeric value by which [Object.entries] orders the array-index keys. *)
Definition indexKey (entry : jsstring * list jsstring) : N :=
  default 0%N (arrayIndex entry.1).

(** What the grouping loop does with one skill once the category is known
    to be an ordinary key. *)
Definition addName (o : JSObject) (cat name : jsstring) : JSObject :=
  match ownProperty o cat with
  | Some names => setProperty o cat (names ++ [name])
  | None => o ++ [(cat, [name])]
  end.

(** A payload with no section at all. *)
Definition emptyPayload : Payload :=
  mkPayload None None None None None None None None None.

(** A stand-in for the packer, for running the generators: every document
    serialises to the four bytes of a ZIP local file header signature. *)
Definition zipSignature : list N := [80; 75; 3; 4]%N.
Definition toyPacker (doc : Document) : Result (list N) := Ok zipSignature.

Definition demoProjects : list Project :=
  map (fun n => mkProject (lit n) None None) ["P1"; "P2"; "P3"; "P4"; "P5"]%string.

Definition demoSkills : list Skill :=
  [mkSkill (lit "Python") (Some (lit "Languages"));
   mkSkill (lit "Forecasting") (Some (lit "2024"));
   mkSkill (lit "SQL") (Some (lit "Languages"))].

(** What one pass over a segment contributes to [newSegments]. *)
Inductive StepEffect (mid off : nat) (st : LoopState) (seg : Segment)
    (st' : LoopState) (out : list Segment) : Prop :=
| StepKeeps :
    out = [seg] ->
    didBold st' = didBold st ->
    boldCount st' = boldCount st ->
    StepEffect mid off st seg st' out
| StepBolds :
    didBold st = false ->
    seg_bold seg = false ->
    didBold st' = true ->
    boldCount st' = S (boldCount st) ->
    boldSegments out = 1 ->
    (startOffset seg = Some off -> offsetsOk mid off out) ->
    StepEffect mid off st seg st' out.

(** What one pass of the inner loop does to the segment list. *)
Inductive PassEffect (st : LoopState) (segs : list Segment)
    (st' : LoopState) (out : list Segment) : Prop :=
| PassKeeps :
    out = segs ->
    didBold st' = didBold st ->
    boldCount st' = boldCount st ->
    PassEffect st segs st' out
| PassBolds :
    didBold st = false ->
    didBold st' = true ->
    boldCount st' = S (boldCount st) ->
    boldSegments out = S (boldSegments segs) ->
    PassEffect st segs st' out.

(** Ascending order of a numeric key. *)
Definition keyLe {A : Type} (key : A -> Z) (a b : A) : Prop := (key a <= key b)%Z.

(** What a failed generation leaves behind: either nothing was written, or
    the write itself failed and the output path holds the bytes written
    until then. *)
Inductive FailureTrace (toBuffer : Document -> Result (list N)) (io : WriteOutcome)
    (outputPath : jsstring) (e : JSError) (w w' : World) : Prop :=
| FailedBeforeWrite :
    files w' = files w ->
    FailureTrace toBuffer io outputPath e w w'
| FailedDuringWrite (n : nat) (doc : Document) (buffer : list N) :
    io = WriteFailsAfter n e ->
    toBuffer doc = Ok buffer ->
    files w' = <[outputPath := take n buffer]> (files w) ->
    FailureTrace toBuffer io outputPath e w w'.

Definition etlBullet : jsstring :=
  lit "Built ETL pipelines in Python and SQL on Azure for reporting and analytics teams".

Definition diskFull : JSError := SystemError "ENOSPC".
Definition outputDocx : jsstring := lit "outputs/resume.docx".
Definition freshWorld : World := mkWorld ∅ [].

(** ASCII strings: every code unit is below 128.  On these the runtime's
    [toLowerCase] is [toLowerCaseASCII]. *)
Definition isASCII (s : jsstring) : bool := forallb (fun c => (c <? 128)%N) s.

(** A segment of an ASCII bullet is well formed for a list of allowed terms:
    its text is ASCII and not empty, and when it is bold its text is, up to
    case, one of the allowed terms. *)
Definition segmentFrom (allowed : list jsstring) (seg : Segment) : Prop :=
  isASCII (seg_text seg) = true /\
  seg_text seg <> [] /\
  (seg_bold seg = true ->
   exists t, In t allowed /\ toLowerCaseASCII (seg_text seg) = toLowerCaseASCII t).

(** A lower-casing that, like the runtime's, turns U+0130 into two code
    units, and is [toLowerCaseASCII] elsewhere. *)
Definition toLowerCaseDotted (s : jsstring) : jsstring :=
  flat_map (fun c => if (c =? 304)%N then [105; 775]%N else toLowerCaseASCII [c]) s.

(** The [sortedTerms] of [splitBulletWithBolds]: the candidate terms,
    longest first. *)
Definition sortedTerms (toLowerCase : jsstring -> jsstring)
    (matchedKeywords : option (list jsstring)) : list jsstring :=
  sort (fun a b => Z.of_nat (length b) - Z.of_nat (length a))%Z
    (List.filter (isCandidate toLowerCase matchedKeywords) PRIORITY_BOLD).

(** The bullets that are shown: those whose text is not empty. *)
Definition shownBullets (bullets : option (list Bullet)) : list jsstring :=
  List.filter (fun t => negb (length t =? 0)) (map bulletText (default [] bullets)).

(** What the paragraphs of one job show. *)
Definition experienceTexts (job : Job) : list jsstring :=
  [j_company job ++ lit ", " ++ j_title job ++ lit " | " ++ dateRange job]
  ++ present [j_location job]
  ++ shownBullets (j_bullets job).

(** A project shows a repository link when its URL starts with ["http"]. *)
Definition hasRepoLink (proj : Project) : bool :=
  truthy (pr_github_url proj) && startsWith (default [] (pr_github_url proj)) (lit "http").

(** What the paragraphs of one project show. *)
Definition projectTexts (proj : Project) : list jsstring :=
  [pr_name proj
     ++ (if hasRepoLink proj then lit " " ++ [EM_DASH] ++ lit " " ++ lit "GitHub" else [])]
  ++ shownBullets (pr_bullets proj).

(** What the line of one certification shows. *)
Definition certificationText (cert : Certification) : jsstring :=
  join (lit " " ++ [EM_DASH] ++ lit " ")
    (c_name cert :: present [c_issuer cert]
       ++ map (fun d => formatDate (Some d)) (present [c_issued cert])).

(** The targets of the hyperlinks of a list of paragraphs. *)
Definition linkTargets (ps : list Paragraph) : list jsstring :=
  flat_map (fun p =>
    flat_map (fun c => match c with
                       | ExternalHyperlink link _ => [link]
                       | Run _ => []
                       end) (children p)) ps.

(** The line logged after a successful write, without the path. *)
Definition successLine (docType : jsstring) : jsstring :=
  if bool_decide (docType = lit "coverletter") then lit "Cover letter generated: "
  else if bool_decide (docType = lit "cv") then lit "CV generated: "
  else lit "Resume generated: ".

(** ** The command line (source lines 563-572)

    [args] is [process.argv.slice(2)]; [None] is the usage message followed
    by [process.exit(1)]. *)

(** [args.indexOf(x)] on an array. *)
Fixpoint arrayIndexOf (args : list jsstring) (x : jsstring) : option nat :=
  match args with
  | [] => None
  | a :: rest =>
      if bool_decide (a = x) then Some 0 else option_map S (arrayIndexOf rest x)
  end.

Record CommandLine := mkCommandLine {
  cl_docType : option jsstring;
  cl_inputFile : jsstring;
  cl_outputFile : jsstring
}.

Definition parseArgs (args : list jsstring) : option CommandLine :=
  let typeFlag := arrayIndexOf args (lit "--type") in
  let docType :=
    match typeFlag with Some i => args !! (i + 1) | None => Some (lit "resume") end in
  let inputFile :=
    match typeFlag with Some i => args !! (i + 2) | None => args !! 0 end in
  let outputFile :=
    match typeFlag with Some i => args !! (i + 3) | None => args !! 1 end in
  if negb (truthy inputFile) || negb (truthy outputFile) then None
  else Some (mkCommandLine docType (default [] inputFile) (default [] outputFile)).

(** The lines of the body of a cover letter (source lines 426, 464-466). *)
Definition coverLetterLines (content : option jsstring) : list jsstring :=
  flat_map (split NEWLINE) (splitParagraphs false (orElse content [])).

(** The paragraph made of one line of the body of a cover letter. *)
Definition bodyLine (line : jsstring) : Paragraph :=
  mkParagraph None None (mkSpacing None (Some 60)) false None
    [Run (textRun line FONT_SIZE_BODY)].

(** ** The module's arrays as shared, mutable objects

    [PRIORITY_BOLD] and [SKIP_LEADERSHIP_STARTS] are module-level arrays and
    [matchedKeywords] is an array of the caller: each is a reference into one
    store that every call shares.  [filter] allocates a new array;
    [sort] sorts in place the array it is called on and returns the same
    reference.  ([NEVER_BOLD] is a Set that the file only queries with
    [has]; the segment objects are created inside the call.) *)

Record Store := mkStore {
  arrays : gmap nat (list jsstring);
  nextRef : nat
}.

Definition PRIORITY_BOLD_ref : nat := 0.
Definition SKIP_LEADERSHIP_STARTS_ref : nat := 1.

(** The store once the module is loaded. *)
Definition moduleStore : Store :=
  mkStore (<[PRIORITY_BOLD_ref := PRIORITY_BOLD]>
             (<[SKIP_LEADERSHIP_STARTS_ref := SKIP_LEADERSHIP_STARTS]> ∅)) 2.

Definition readArray (r : nat) (s : Store) : list jsstring :=
  default [] (arrays s !! r).

(** An array literal: a fresh reference. *)
Definition newArray (l : list jsstring) (s : Store) : nat * Store :=
  (nextRef s, mkStore (<[nextRef s := l]> (arrays s)) (S (nextRef s))).

(** [arr.filter(p)]: reads [arr], returns a new array. *)
Definition Array_filter (p : jsstring -> bool) (r : nat) (s : Store) : nat * Store :=
  newArray (List.filter p (readArray r s)) s.

(** [arr.sort(cmp)]: sorts [arr] in place, returns [arr]. *)
Definition Array_sort (cmp : jsstring -> jsstring -> Z) (r : nat) (s : Store)
    : nat * Store :=
  (r, mkStore (<[r := sort cmp (readArray r s)]> (arrays s)) (nextRef s)).

(** [splitBulletWithBolds] (source lines 46-101) over the store. *)
Definition splitBulletWithBolds_store (toLowerCase : jsstring -> jsstring)
    (text_ : option jsstring) (matchedKeywords : option nat) (maxBolds_ : option nat)
    (s : Store) : list TextRun * Store :=
  let maxBolds := default 2 maxBolds_ in
  match text_ with
  | None | Some [] => ([plainRun []], s)
  | Some text =>
      let textTrimmed := trim text in
      if existsb (startsWith textTrimmed) (readArray SKIP_LEADERSHIP_STARTS_ref s)
      then ([plainRun text], s)
      else
        let keywords := option_map (fun r => readArray r s) matchedKeywords in
        let '(termsToCheck, s1) :=
          Array_filter (isCandidate toLowerCase keywords) PRIORITY_BOLD_ref s in
        let '(sortedTerms, s2) :=
          Array_sort (fun a b => Z.of_nat (length b) - Z.of_nat (length a))%Z
            termsToCheck s1 in
        let midpoint := length text / 2 in
        (map segmentRun
           (boldLoop toLowerCase (readArray sortedTerms s2) maxBolds midpoint
              [mkSegment text false (Some 0)] 0),
         s2)
  end.

(** The stores a program can be in between two calls: the module has been
    loaded, callers have built arrays, [splitBulletWithBolds] has run. *)
Inductive Reachable (toLowerCase : jsstring -> jsstring) : Store -> Prop :=
| reach_module : Reachable toLowerCase moduleStore
| reach_array (l : list jsstring) (s : Store) :
    Reachable toLowerCase s -> Reachable toLowerCase (newArray l s).2
| reach_call (text_ : option jsstring) (matchedKeywords maxBolds_ : option nat)
    (s : Store) :
    Reachable toLowerCase s ->
    Reachable toLowerCase
      (splitBulletWithBolds_store toLowerCase text_ matchedKeywords maxBolds_ s).2.

(** The module's arrays still hold what the source declares. *)
Definition moduleIntact (s : Store) : Prop :=
  arrays s !! PRIORITY_BOLD_ref = Some PRIORITY_BOLD /\
  arrays s !! SKIP_LEADERSHIP_STARTS_ref = Some SKIP_LEADERSHIP_STARTS /\
  2 <= nextRef s.

(** Two stores of one program: a keyword array is built, a bullet is
    annotated, and another keyword array with the same contents is built. *)
Definition storeBefore : Store := (newArray [lit "Python"] moduleStore).2.
Definition storeAfter : Store :=
  (newArray [lit "Python"]
     (splitBulletWithBolds_store toLowerCaseASCII (Some etlBullet) (Some 2) None
        storeBefore).2).2.

(** ** The document a generator packs

    The sections each generator assembles before it calls the packer
    (source lines 425-489, 497-520, 528-556), and the common tail
    [Packer.toBuffer], [fs.writeFileSync], [console.log]. *)

Definition coverLetterDocument (data : Payload) : Document :=
  let personal := default emptyPersonal (d_personal data) in
  let content := splitParagraphs false (orElse (d_content data) []) in
  let children0 :=
    [mkParagraph (Some CENTER) None (mkSpacing None (Some 60)) false None
       [Run (boldRun (orElse (p_name personal) []) FONT_SIZE_NAME)]] in
  let contactParts :=
    omap (fun o => if truthy o then o else None)
      [p_location personal; p_phone personal; p_email personal] in
  let children1 :=
    if 0 <? length contactParts
    then children0 ++
         [mkParagraph (Some CENTER) None (mkSpacing None (Some 80)) false None
            [Run (textRun (join SEP contactParts) FONT_SIZE_CONTACT)]]
    else children0 in
  let children2 :=
    if truthy (d_date data)
    then children1 ++
         [mkParagraph None None (mkSpacing None (Some 80)) false None
            [Run (textRun (default [] (d_date data)) FONT_SIZE_BODY)]]
    else children1 in
  let children :=
    children2 ++
    flat_map (fun para =>
      map (fun line =>
             mkParagraph None None (mkSpacing None (Some 60)) false None
               [Run (textRun line FONT_SIZE_BODY)])
          (split NEWLINE para)) content in
  mkDocument pageMargins children.

Definition resumeDocument (toLowerCase : jsstring -> jsstring) (data : Payload)
    : Result Document :=
  let sections0 := buildHeader (default emptyPersonal (d_personal data)) in
  let sections1 := sections0 ++ buildExperience toLowerCase (default [] (d_experience data)) in
  let sections2 := sections1 ++ buildProjects toLowerCase (default [] (d_projects data)) false in
  match buildSkills (default [] (d_skills data)) with
  | Throw e => Throw e
  | Ok skills =>
      let sections3 := sections2 ++ skills in
      let sections4 := sections3 ++ buildCertifications (default [] (d_certifications data)) in
      let sections := sections4 ++ buildEducation (default [] (d_education data)) in
      Ok (mkDocument pageMargins sections)
  end.

Definition cvDocument (toLowerCase : jsstring -> jsstring) (data : Payload)
    : Result Document :=
  let sections0 := buildHeader (default emptyPersonal (d_personal data)) in
  let sections0' :=
    if truthy (d_summary data) then sections0 ++ buildSummary (d_summary data) else sections0 in
  let sections1 := sections0' ++ buildExperience toLowerCase (default [] (d_experience data)) in
  let sections2 := sections1 ++ buildProjects toLowerCase (default [] (d_projects data)) true in
  match buildSkills (default [] (d_skills data)) with
  | Throw e => Throw e
  | Ok skills =>
      let sections3 := sections2 ++ skills in
      let sections4 := sections3 ++ buildCertifications (default [] (d_certifications data)) in
      let sections := sections4 ++ buildEducation (default [] (d_education data)) in
      Ok (mkDocument pageMargins sections)
  end.

(** The document [run] builds for a document type; [Throw] when building
    the sections throws. *)
Definition documentOf (toLowerCase : jsstring -> jsstring) (docType : jsstring)
    (data : Payload) : Result Document :=
  if bool_decide (docType = lit "coverletter") then Ok (coverLetterDocument data)
  else if bool_decide (docType = lit "cv") then cvDocument toLowerCase data
  else resumeDocument toLowerCase data.

(** Pack, write, log: the last three statements of every generator. *)
Definition writeDocument (toBuffer : Document -> Result (list N)) (io : WriteOutcome)
    (document : Result Document) (line outputPath : jsstring) : IO unit :=
  doc <- liftResult document ;;
  buffer <- liftResult (toBuffer doc) ;;
  _ <- writeFileSync io outputPath buffer ;;
  console_log (line ++ outputPath).

(** A payload with three projects, two of them with bullets, and skills. *)
Definition demoPayload : Payload :=
  mkPayload (Some (mkPersonal (Some (lit "Ada")) None None None None None None))
    None None
    (Some [mkProject (lit "Ledger") (Some (lit "https://example.org/ledger"))
             (Some [BulletString (lit "Built ETL pipelines in Python for reporting teams")]);
           mkProject (lit "Atlas") None
             (Some [BulletObject (Some (lit "Modelled sales in SQL and Power BI dashboards"))
                      (Some [lit "sql"])]);
           mkProject (lit "Orbit") None None])
    (Some demoSkills) None None None None.

(** A category that names a member of [Object.prototype]. *)
Definition inheritedPayload : Payload :=
  mkPayload None None None None
    (Some [mkSkill (lit "Python") (Some (lit "constructor"))]) None None None None.

(** A packer that rejects every document. *)
Definition failingPacker (doc : Document) : Result (list N) :=
  Throw (PackerError "cannot serialise").

Definition accessDenied : JSError := SystemError "EACCES".

(** A file system that already holds a file next to the output path. *)
Definition notesPath : jsstring := lit "outputs/notes.txt".
Definition worldWithNotes : World := mkWorld (<[notesPath := [110; 111]%N]> ∅) [].

(** ** Slicing *)

Lemma slice_three (s : jsstring) (idx n : nat) :
  slice s 0 idx ++ slice s idx (idx + n) ++ sliceFrom s (idx + n) = s.
Proof.
  unfold slice, sliceFrom.
  replace (idx - 0) with idx by lia.
  replace (idx + n - idx) with n by lia.
  rewrite <- (drop_drop s n idx).
  change (drop 0 s) with s.
  rewrite (take_drop n (drop idx s)).
  apply take_drop.
Qed.

Lemma slice_after_nonempty (s : jsstring) (idx n : nat) :
  sliceFrom s (idx + n) <> [] ->
  length (slice s 0 idx) = idx /\ length (slice s idx (idx + n)) = n.
Proof.
  unfold slice, sliceFrom. intros Hne.
  assert (idx + n < length s) as Hlt.
  { destruct (le_lt_dec (length s) (idx + n)) as [Hle|Hlt]; [|exact Hlt].
    exfalso. apply Hne. apply drop_ge. exact Hle. }
  rewrite !length_take, !length_drop. lia.
Qed.

Lemma slice_before_length (s : jsstring) (idx : nat) :
  length (slice s 0 idx) <= idx.
Proof. unfold slice. rewrite length_take. lia. Qed.

Lemma truthy_Some_false (s : jsstring) : truthy (Some s) = false -> s = [].
Proof. destruct s; simpl; congruence. Qed.

Lemma truthy_Some_true (s : jsstring) : truthy (Some s) = true -> s <> [].
Proof. destruct s; simpl; congruence. Qed.

(** ** Segment lists *)

Lemma segTexts_app (a b : list Segment) : segTexts (a ++ b) = segTexts a ++ segTexts b.
Proof. unfold segTexts. rewrite map_app. apply concat_app. Qed.

Lemma boldSegments_app (a b : list Segment) :
  boldSegments (a ++ b) = boldSegments a + boldSegments b.
Proof. unfold boldSegments. rewrite List.filter_app. apply length_app. Qed.

Lemma offsetsOk_app (mid off : nat) (a b : list Segment) :
  offsetsOk mid off (a ++ b) <->
  offsetsOk mid off a /\ offsetsOk mid (off + length (segTexts a)) b.
Proof.
  revert off. induction a as [|seg a IH]; intros off; simpl.
  - replace (off + 0) with off by lia. tauto.
  - rewrite IH. unfold segTexts. simpl. rewrite length_app.
    replace (off + length (seg_text seg) + length (concat (map seg_text a)))
      with (off + (length (seg_text seg) + length (concat (map seg_text a)))) by lia.
    tauto.
Qed.

(** ** Prefixes and trimming *)

Lemma startsWith_app (p r : jsstring) : startsWith (p ++ r) p = true.
Proof.
  induction p as [|c p IH]; [now destruct r|].
  simpl. rewrite N.eqb_refl. exact IH.
Qed.

Lemma trimStart_solid_head (c : N) (s : jsstring) :
  isWhiteSpace c = false -> trimStart (c :: s) = c :: s.
Proof. intros H. cbn [trimStart]. now rewrite H. Qed.

Lemma trimStart_keeps_suffix (a : jsstring) (d : N) (b : jsstring) :
  isWhiteSpace d = false ->
  exists a', trimStart (a ++ d :: b) = a' ++ d :: b.
Proof.
  intros Hd. induction a as [|x a IH].
  - exists []. now apply trimStart_solid_head.
  - cbn [app trimStart]. destruct (isWhiteSpace x).
    + exact IH.
    + now exists (x :: a).
Qed.

Lemma trim_keeps_solid_prefix (p rest : jsstring) :
  solid p = true -> exists rest', trim (p ++ rest) = p ++ rest'.
Proof.
  unfold solid. intros Hsolid.
  destruct p as [|c q]; [discriminate|].
  destruct (rev (c :: q)) as [|d rq] eqn:Hrev; [discriminate|].
  apply andb_true_iff in Hsolid as [Hc Hd].
  apply negb_true_iff in Hc. apply negb_true_iff in Hd.
  unfold trim, trimEnd.
  change ((c :: q) ++ rest) with (c :: (q ++ rest)).
  rewrite (trimStart_solid_head c (q ++ rest) Hc).
  change (c :: (q ++ rest)) with ((c :: q) ++ rest).
  rewrite rev_app_distr, Hrev.
  destruct (trimStart_keeps_suffix (rev rest) d rq Hd) as [a' Ha'].
  rewrite Ha'. exists (rev a').
  rewrite rev_app_distr, <- Hrev, rev_involutive. reflexivity.
Qed.

Lemma SKIP_LEADERSHIP_STARTS_solid (p : jsstring) :
  In p SKIP_LEADERSHIP_STARTS -> solid p = true.
Proof.
  assert (forallb solid SKIP_LEADERSHIP_STARTS = true) as H by (vm_compute; reflexivity).
  rewrite forallb_forall in H. apply H.
Qed.

(** ** The emphasis loops *)

Section EmphasisProperties.
Variable toLowerCase : jsstring -> jsstring.

Lemma segStep_effect (term : jsstring) (mid off : nat) (st : LoopState) (seg : Segment) :
  exists out,
    newSegments (segStep toLowerCase term mid st seg) = newSegments st ++ out /\
    segTexts out = seg_text seg /\
    StepEffect mid off st seg (segStep toLowerCase term mid st seg) out.
Proof.
  unfold segStep.
  destruct (seg_bold seg || didBold st) eqn:Hskip.
  { exists [seg]. simpl. unfold segTexts. simpl. rewrite app_nil_r.
    repeat split. now apply StepKeeps. }
  apply orb_false_iff in Hskip as [Hplain Hnot].
  destruct (indexOf (toLowerCase (seg_text seg)) (toLowerCase term)) as [idx|].
  2:{ exists [seg]. simpl. unfold segTexts. simpl. rewrite app_nil_r.
      repeat split. now apply StepKeeps. }
  destruct (mid <=? default 0 (startOffset seg) + idx) eqn:Hmid.
  { exists [seg]. simpl. unfold segTexts. simpl. rewrite app_nil_r.
    repeat split. now apply StepKeeps. }
  apply Nat.leb_gt in Hmid.
  set (before := slice (seg_text seg) 0 idx).
  set (mtch := slice (seg_text seg) idx (idx + length term)).
  set (after := sliceFrom (seg_text seg) (idx + length term)).
  pose proof (slice_three (seg_text seg) idx (length term)) as Hthree.
  fold before mtch after in Hthree.
  eexists. split; [reflexivity|]. split.
  - rewrite !segTexts_app.
    destruct (truthy (Some before)) eqn:Hb, (truthy (Some after)) eqn:Ha;
      try apply truthy_Some_false in Hb; try apply truthy_Some_false in Ha;
      unfold segTexts; simpl; rewrite ?app_nil_r;
      rewrite ?Hb, ?Ha in Hthree; simpl in Hthree; rewrite ?app_nil_r in Hthree;
      exact Hthree.
  - apply StepBolds; [exact Hnot|exact Hplain|reflexivity|reflexivity| |].
    + rewrite !boldSegments_app.
      destruct (truthy (Some before)), (truthy (Some after)); reflexivity.
    + intros Hoff. rewrite Hoff in Hmid |- *.
      change (default 0 (Some off)) with off in Hmid |- *.
      pose proof (slice_before_length (seg_text seg) idx) as Hle.
      fold before in Hle.
      assert (offsetsOk mid (off + length before)
                (mkSegment mtch true (Some (off + idx)) ::
                 (if truthy (Some after)
                  then [mkSegment after false (Some (off + idx + length term))]
                  else []))) as Htail.
      { cbn [offsetsOk seg_bold startOffset seg_text].
        split; [exists (off + idx); split; [reflexivity|lia]|].
        destruct (truthy (Some after)) eqn:Ha; [|exact I].
        cbn [offsetsOk seg_bold startOffset seg_text]. split; [|exact I].
        apply truthy_Some_true in Ha.
        destruct (slice_after_nonempty (seg_text seg) idx (length term) Ha) as [H1 H2].
        fold before in H1. fold mtch in H2. rewrite H1, H2. f_equal. }
      destruct (truthy (Some before)) eqn:Hb.
      * cbn [app offsetsOk seg_bold startOffset seg_text].
        split; [reflexivity|]. exact Htail.
      * apply truthy_Some_false in Hb. rewrite Hb in Htail.
        cbn [length] in Htail.
        replace (off + 0) with off in Htail by lia. exact Htail.
Qed.

Lemma boldSegments_cons_plain (seg : Segment) (segs : list Segment) :
  seg_bold seg = false -> boldSegments (seg :: segs) = boldSegments segs.
Proof. intros H. unfold boldSegments. simpl. now rewrite H. Qed.

Lemma pass_effect (term : jsstring) (mid : nat) (segs : list Segment) :
  forall (off : nat) (st : LoopState),
  exists out,
    newSegments (fold_left (segStep toLowerCase term mid) segs st) = newSegments st ++ out /\
    segTexts out = segTexts segs /\
    (offsetsOk mid off segs -> offsetsOk mid off out) /\
    PassEffect st segs (fold_left (segStep toLowerCase term mid) segs st) out.
Proof.
  induction segs as [|seg segs IH]; intros off st.
  - exists []. simpl. rewrite app_nil_r. repeat split; try done. now apply PassKeeps.
  - cbn [fold_left].
    destruct (segStep_effect term mid off st seg) as (out1 & Hnew1 & Htxt1 & Heff1).
    set (st1 := segStep toLowerCase term mid st seg) in *.
    destruct (IH (off + length (seg_text seg)) st1) as (out2 & Hnew2 & Htxt2 & Hoff2 & Heff2).
    exists (out1 ++ out2). split; [|split; [|split]].
    + rewrite Hnew2, Hnew1. now rewrite app_assoc.
    + rewrite segTexts_app, Htxt1, Htxt2. reflexivity.
    + cbn [offsetsOk]. intros [Hseg Hrest].
      apply offsetsOk_app. rewrite Htxt1. split; [|now apply Hoff2].
      destruct Heff1 as [-> _ _ | _ Hplain _ _ _ Hout].
      * cbn [offsetsOk]. split; [exact Hseg|exact I].
      * rewrite Hplain in Hseg. now apply Hout.
    + destruct Heff1 as [-> Hd1 Hc1 | Hd0 Hplain Hd1 Hc1 Hb1 _];
        destruct Heff2 as [-> Hd2 Hc2 | Hd1' Hd2 Hc2 Hb2].
      * apply PassKeeps; [reflexivity|congruence|congruence].
      * apply PassBolds; [congruence|exact Hd2|congruence|].
        change ([seg] ++ out2) with (seg :: out2).
        unfold boldSegments in *. simpl.
        destruct (seg_bold seg); simpl; lia.
      * apply PassBolds; [exact Hd0|congruence|congruence|].
        rewrite boldSegments_app, Hb1.
        now rewrite (boldSegments_cons_plain seg segs Hplain).
      * congruence.
Qed.

Lemma boldLoop_invariant (terms : list jsstring) (maxBolds mid : nat) :
  forall (segs : list Segment) (bc : nat),
    boldSegments segs = bc -> bc <= maxBolds -> offsetsOk mid 0 segs ->
    segTexts (boldLoop toLowerCase terms maxBolds mid segs bc) = segTexts segs /\
    boldSegments (boldLoop toLowerCase terms maxBolds mid segs bc) <= maxBolds /\
    offsetsOk mid 0 (boldLoop toLowerCase terms maxBolds mid segs bc).
Proof.
  induction terms as [|term rest IH]; intros segs bc Hbc Hle Hoff; cbn [boldLoop].
  - split; [reflexivity|]. split; [lia|exact Hoff].
  - destruct (maxBolds <=? bc) eqn:Hfull.
    { split; [reflexivity|]. split; [lia|exact Hoff]. }
    apply Nat.leb_gt in Hfull.
    destruct (pass_effect term mid segs 0 (mkLoopState [] false bc))
      as (out & Hnew & Htxt & Hok & Heff).
    set (st := fold_left (segStep toLowerCase term mid) segs (mkLoopState [] false bc)) in *.
    cbn [newSegments app] in Hnew.
    destruct Heff as [-> Hd Hc | _ Hd Hc Hb]; cbn [didBold boldCount] in Hd, Hc.
    + rewrite Hd, Hc. now apply IH.
    + rewrite Hd, Hc, Hnew.
      destruct (IH out (S bc)) as (H1 & H2 & H3); [lia|lia|now apply Hok|].
      split; [congruence|]. split; assumption.
Qed.

Lemma spanTexts_segmentRun (segs : list Segment) :
  spanTexts (map segmentRun segs) = segTexts segs.
Proof. unfold spanTexts, segTexts. now rewrite map_map. Qed.

Lemma emphasized_segmentRun (seg : Segment) :
  emphasized (segmentRun seg) = seg_bold seg.
Proof. unfold emphasized, segmentRun. simpl. now destruct (seg_bold seg). Qed.

Lemma emphasizedCount_segmentRun (segs : list Segment) :
  emphasizedCount (map segmentRun segs) = boldSegments segs.
Proof.
  unfold emphasizedCount, boldSegments.
  induction segs as [|seg segs IH]; [reflexivity|].
  simpl. rewrite emphasized_segmentRun.
  destruct (seg_bold seg); simpl; now rewrite IH.
Qed.

Lemma offsetsOk_start (mid : nat) (segs : list Segment) :
  forall (off i : nat) (seg : Segment),
    offsetsOk mid off segs ->
    segs !! i = Some seg -> seg_bold seg = true ->
    off + length (segTexts (take i segs)) < mid.
Proof.
  induction segs as [|s segs IH]; intros off i seg Hok Hi Hbold; [discriminate|].
  destruct Hok as [Hs Hrest].
  destruct i as [|i].
  - injection Hi as ->. rewrite Hbold in Hs. destruct Hs as (k & _ & Hk).
    simpl. lia.
  - simpl in Hi. specialize (IH _ _ _ Hrest Hi Hbold).
    change (take (S i) (s :: segs)) with (s :: take i segs).
    unfold segTexts in *. simpl. rewrite length_app. lia.
Qed.

Lemma plain_span_invariant (t : jsstring) (n mid : nat) :
  spanTexts [plainRun t] = t /\
  emphasizedCount [plainRun t] <= n /\
  (forall (i : nat) (span : TextRun),
      [plainRun t] !! i = Some span -> emphasized span = true ->
      spanStart [plainRun t] i < mid).
Proof.
  split; [|split].
  - unfold spanTexts. cbn [map concat text plainRun]. apply app_nil_r.
  - unfold emphasizedCount. cbn. lia.
  - intros [|i] span Hi He.
    + injection Hi as <-. discriminate He.
    + destruct i; discriminate Hi.
Qed.

Lemma segments_span_invariant (segs : list Segment) (t : jsstring) (n mid : nat) :
  segTexts segs = t -> boldSegments segs <= n -> offsetsOk mid 0 segs ->
  spanTexts (map segmentRun segs) = t /\
  emphasizedCount (map segmentRun segs) <= n /\
  (forall (i : nat) (span : TextRun),
      map segmentRun segs !! i = Some span -> emphasized span = true ->
      spanStart (map segmentRun segs) i < mid).
Proof.
  intros Htxt Hcnt Hok. split; [|split].
  - now rewrite spanTexts_segmentRun.
  - now rewrite emphasizedCount_segmentRun.
  - intros i span Hi He.
    change (map segmentRun segs) with (segmentRun <$> segs) in Hi.
    rewrite list_lookup_fmap in Hi.
    destruct (segs !! i) as [seg|] eqn:Hseg; [|discriminate Hi].
    injection Hi as <-. rewrite emphasized_segmentRun in He.
    pose proof (offsetsOk_start mid segs 0 i seg Hok Hseg He) as Hlt.
    unfold spanStart.
    change (map segmentRun segs) with (segmentRun <$> segs).
    rewrite <- fmap_take.
    change (segmentRun <$> take i segs) with (map segmentRun (take i segs)).
    rewrite spanTexts_segmentRun. exact Hlt.
Qed.

(** C1. For every bullet text, every matchedKeywords list and every maximum,
    the spans returned by [splitBulletWithBolds] concatenate, in order, to the
    bullet text; at most [maxSpans] of them (2 when the argument is omitted)
    are emphasized; and every emphasized span starts before the offset
    [floor(length / 2)] of the text.  This holds whatever [toLowerCase] does. *)
Theorem splitBulletWithBolds_emphasis_invariant
    (bulletText : jsstring) (matchedKeywords : option (list jsstring))
    (maxSpans : option nat) :
  let spans := splitBulletWithBolds toLowerCase (Some bulletText) matchedKeywords maxSpans in
  spanTexts spans = bulletText /\
  emphasizedCount spans <= default 2 maxSpans /\
  (forall (i : nat) (span : TextRun),
      spans !! i = Some span -> emphasized span = true ->
      spanStart spans i < length bulletText / 2).
Proof.
  unfold splitBulletWithBolds.
  destruct bulletText as [|c s].
  { apply plain_span_invariant. }
  generalize (c :: s). clear c s. intros bt.
  destruct (existsb (startsWith (trim bt)) SKIP_LEADERSHIP_STARTS).
  { apply plain_span_invariant. }
  match goal with
  | |- context [boldLoop _ ?t _ _ _ _] => generalize t
  end.
  intros terms. cbv zeta.
  destruct (boldLoop_invariant terms (default 2 maxSpans) (length bt / 2)
              [mkSegment bt false (Some 0)] 0) as (Htxt & Hcnt & Hok).
  { reflexivity. }
  { apply Nat.le_0_l. }
  { cbn [offsetsOk seg_bold startOffset]. split; [reflexivity|exact I]. }
  apply segments_span_invariant; [|exact Hcnt|exact Hok].
  rewrite Htxt. unfold segTexts. cbn [map concat seg_text]. apply app_nil_r.
Qed.

(** C2. A bullet that begins with one of the configured lead-in phrases is
    returned whole, as exactly one span that is not emphasized, whatever the
    matched keywords and the maximum are. *)
Theorem splitBulletWithBolds_soft_lead
    (prefix rest : jsstring) (matchedKeywords : option (list jsstring))
    (maxSpans : option nat) :
  In prefix SKIP_LEADERSHIP_STARTS ->
  exists span,
    splitBulletWithBolds toLowerCase (Some (prefix ++ rest)) matchedKeywords maxSpans = [span] /\
    text span = prefix ++ rest /\
    emphasized span = false.
Proof.
  intros Hin.
  pose proof (SKIP_LEADERSHIP_STARTS_solid prefix Hin) as Hsolid.
  exists (plainRun (prefix ++ rest)). split; [|split; reflexivity].
  unfold splitBulletWithBolds.
  destruct (prefix ++ rest) as [|c s] eqn:Htext.
  { destruct prefix; [discriminate Hsolid|discriminate Htext]. }
  rewrite <- Htext. clear c s Htext.
  destruct (trim_keeps_solid_prefix prefix rest Hsolid) as [rest' Htrim].
  assert (existsb (startsWith (trim (prefix ++ rest))) SKIP_LEADERSHIP_STARTS = true) as ->.
  { apply existsb_exists. exists prefix. split; [exact Hin|].
    rewrite Htrim. apply startsWith_app. }
  reflexivity.
Qed.

(** C9. For a missing ([null], [undefined]) or empty bullet text the result
    is exactly one span, not emphasized, whose text is the empty string. *)
Theorem splitBulletWithBolds_no_text
    (matchedKeywords : option (list jsstring)) (maxSpans : option nat) :
  let isEmptyPlainSpan (spans : list TextRun) :=
    exists span, spans = [span] /\ text span = [] /\ emphasized span = false in
  isEmptyPlainSpan (splitBulletWithBolds toLowerCase None matchedKeywords maxSpans) /\
  isEmptyPlainSpan (splitBulletWithBolds toLowerCase (Some []) matchedKeywords maxSpans).
Proof.
  cbv zeta. split; exists (plainRun []); repeat split.
Qed.

End EmphasisProperties.

(** ** The annotator on concrete bullets *)

Example etlBullet_spans :
  map (fun r => (text r, emphasized r)) (splitBulletWithBolds toLowerCaseASCII (Some etlBullet) (Some []) None)
  = [(lit "Built ETL pipelines in ", false); (lit "Python", true); (lit " and ", false);
     (lit "SQL", true); (lit " on Azure for reporting and analytics teams", false)].
Proof. vm_compute. reflexivity. Qed.

Lemma splitBulletWithBolds_emphasis_invariant_witness :
  let spans := splitBulletWithBolds toLowerCaseASCII (Some etlBullet) (Some []) None in
  spans !! 3 = Some (segmentRun (mkSegment (lit "SQL") true (Some 34))) /\
  spanTexts spans = etlBullet /\
  emphasizedCount spans <= 2 /\
  spanStart spans 3 < length etlBullet / 2.
Proof.
  destruct (splitBulletWithBolds_emphasis_invariant toLowerCaseASCII etlBullet (Some []) None)
    as (Htexts & Hcount & Hstart).
  split; [vm_compute; reflexivity|].
  split; [exact Htexts|]. split; [exact Hcount|].
  apply (Hstart 3 (segmentRun (mkSegment (lit "SQL") true (Some 34))));
    vm_compute; reflexivity.
Defined.

Lemma splitBulletWithBolds_soft_lead_witness :
  In (lit "Collaborated") SKIP_LEADERSHIP_STARTS /\
  exists span,
    splitBulletWithBolds toLowerCaseASCII
      (Some (lit "Collaborated" ++ lit " with the data team to automate Python reports"))
      (Some [lit "Python"]) None = [span] /\
    text span = lit "Collaborated" ++ lit " with the data team to automate Python reports" /\
    emphasized span = false.
Proof.
  split.
  - left. reflexivity.
  - apply (splitBulletWithBolds_soft_lead toLowerCaseASCII (lit "Collaborated")
             (lit " with the data team to automate Python reports")
             (Some [lit "Python"]) None).
    left. reflexivity.
Defined.


(** ** Project selection: [buildProjects] *)

Section ProjectProperties.
Variable toLowerCase : jsstring -> jsstring.

Lemma renderedTitles_bullets (bullets : option (list Bullet)) :
  renderedTitles (buildBullets toLowerCase bullets) = [].
Proof.
  unfold buildBullets, renderedTitles.
  induction (default [] bullets) as [|b bs IH]; [reflexivity|].
  cbn [flat_map]. destruct (truthy (Some (bulletText b))); [|exact IH].
  cbn [app omap list_omap titleOf heading bullet]. exact IH.
Qed.

Lemma titleOf_projectTitle (proj : Project) :
  titleOf (projectTitle proj) = Some (pr_name proj).
Proof.
  unfold projectTitle, titleOf. cbn [heading bullet children].
  destruct (truthy (pr_github_url proj) && _); reflexivity.
Qed.

Lemma renderedTitles_projects (projects : list Project) :
  renderedTitles
    (flat_map (fun proj => projectTitle proj :: buildBullets toLowerCase (pr_bullets proj))
       projects)
  = map pr_name projects.
Proof.
  induction projects as [|proj projects IH]; [reflexivity|].
  cbn [flat_map map]. unfold renderedTitles in *.
  cbn [app omap list_omap]. rewrite titleOf_projectTitle.
  rewrite omap_app. fold (renderedTitles (buildBullets toLowerCase (pr_bullets proj))).
  rewrite renderedTitles_bullets. cbn [app]. now rewrite IH.
Qed.

Lemma renderedTitles_buildProjects (projects : list Project) (isCv : bool) :
  renderedTitles (buildProjects toLowerCase projects isCv)
  = map pr_name (if isCv then projects else take 3 projects).
Proof.
  unfold buildProjects, slice_list.
  destruct projects as [|proj projects]; [now destruct isCv|].
  cbn [length Nat.eqb].
  change (3 - 0) with 3. change (drop 0 (proj :: projects)) with (proj :: projects).
  set (top := if isCv then _ else _).
  unfold renderedTitles. cbn [omap list_omap].
  change (titleOf (sectionHeading (lit "Projects"))) with (@None jsstring).
  apply renderedTitles_projects.
Qed.

(** C3. In resume mode ([isCv = false]) exactly the first three projects are
    rendered, in their original order (all of them when there are fewer; three
    out of five); in CV mode ([isCv = true]) every project is rendered, in the
    original order. *)
Theorem buildProjects_cap (projects : list Project) :
  renderedTitles (buildProjects toLowerCase projects false) = map pr_name (take 3 projects) /\
  length (renderedTitles (buildProjects toLowerCase projects false)) = Nat.min 3 (length projects) /\
  buildProjects toLowerCase projects false = buildProjects toLowerCase (take 3 projects) false /\
  renderedTitles (buildProjects toLowerCase projects true) = map pr_name projects.
Proof.
  split; [apply (renderedTitles_buildProjects projects false)|].
  split; [|split; [|apply (renderedTitles_buildProjects projects true)]].
  - rewrite (renderedTitles_buildProjects projects false).
    rewrite length_map, length_take. reflexivity.
  - unfold buildProjects, slice_list.
    change (3 - 0) with 3. change (drop 0 projects) with projects.
    change (drop 0 (take 3 projects)) with (take 3 projects).
    rewrite take_take. change (3 `min` 3) with 3.
    destruct projects as [|p projects]; reflexivity.
Qed.

End ProjectProperties.

Example five_projects_resume :
  renderedTitles (buildProjects toLowerCaseASCII demoProjects false)
  = [lit "P1"; lit "P2"; lit "P3"].
Proof. vm_compute. reflexivity. Qed.

Example five_projects_cv :
  renderedTitles (buildProjects toLowerCaseASCII demoProjects true)
  = [lit "P1"; lit "P2"; lit "P3"; lit "P4"; lit "P5"].
Proof. vm_compute. reflexivity. Qed.

(** ** Dates: splitting and [formatDate] *)

Lemma split_not_nil (sep : N) (s : jsstring) : split sep s <> [].
Proof.
  destruct s as [|c s]; [discriminate|].
  cbn [split]. destruct (N.eqb c sep); [discriminate|].
  destruct (split sep s); discriminate.
Qed.

Lemma split_sep (sep : N) (p r : jsstring) :
  noSep sep p = true -> split sep (p ++ sep :: r) = p :: split sep r.
Proof.
  induction p as [|c p IH]; intros Hp.
  - cbn [app split]. now rewrite N.eqb_refl.
  - cbn [noSep forallb] in Hp. apply andb_true_iff in Hp as [Hc Hp].
    apply negb_true_iff in Hc.
    cbn [app split]. rewrite Hc. now rewrite (IH Hp).
Qed.

Lemma split_single (sep : N) (p : jsstring) :
  noSep sep p = true -> split sep p = [p].
Proof.
  induction p as [|c p IH]; intros Hp; [reflexivity|].
  cbn [noSep forallb] in Hp. apply andb_true_iff in Hp as [Hc Hp].
  apply negb_true_iff in Hc.
  cbn [split]. rewrite Hc. now rewrite (IH Hp).
Qed.

Lemma split_parts (sep : N) (s : jsstring) :
  Forall (fun p => noSep sep p = true) (split sep s).
Proof.
  induction s as [|c s IH]; [repeat constructor|].
  cbn [split]. destruct (N.eqb c sep) eqn:Hc.
  - constructor; [reflexivity|exact IH].
  - destruct (split sep s) as [|p ps]; [repeat constructor; cbn; now rewrite Hc|].
    inversion IH as [|? ? Hp Hps]; subst. constructor; [|exact Hps].
    cbn [noSep forallb]. rewrite Hc. exact Hp.
Qed.

Lemma join_cons (sep p q : jsstring) (ps : list jsstring) :
  join sep (p :: q :: ps) = p ++ sep ++ join sep (q :: ps).
Proof. reflexivity. Qed.

Lemma split_join (sep : N) (s : jsstring) : join [sep] (split sep s) = s.
Proof.
  induction s as [|c s IH]; [reflexivity|].
  cbn [split]. destruct (N.eqb c sep) eqn:Hc.
  - apply N.eqb_eq in Hc. subst c.
    pose proof (split_not_nil sep s) as Hne.
    destruct (split sep s) as [|p ps]; [congruence|].
    rewrite join_cons, IH. reflexivity.
  - pose proof (split_not_nil sep s) as Hne.
    destruct (split sep s) as [|p ps]; [congruence|].
    destruct ps as [|q qs].
    + cbn [join] in IH |- *. now rewrite IH.
    + rewrite join_cons in IH |- *. rewrite <- IH. reflexivity.
Qed.

(** The two components [formatDate] looks at, and what follows them. *)
Lemma split_two (sep : N) (s year month : jsstring) (more : list jsstring) :
  split sep s = year :: month :: more ->
  exists rest,
    s = year ++ sep :: month ++ rest /\
    noSep sep year = true /\ noSep sep month = true /\
    (rest = [] \/ exists r, rest = sep :: r).
Proof.
  intros Hsplit.
  pose proof (split_join sep s) as Hjoin.
  pose proof (split_parts sep s) as Hparts.
  rewrite Hsplit in Hjoin, Hparts.
  pose proof (Forall_inv Hparts) as Hy.
  pose proof (Forall_inv (Forall_inv_tail Hparts)) as Hm.
  cbv beta in Hy, Hm.
  destruct more as [|q qs].
  - exists []. rewrite join_cons in Hjoin. cbn [join app] in Hjoin. rewrite app_nil_r.
    split; [now rewrite <- Hjoin|]. repeat split; try assumption. now left.
  - exists (sep :: join [sep] (q :: qs)).
    split.
    + rewrite <- Hjoin. rewrite !join_cons. reflexivity.
    + repeat split; try assumption. right. now eexists.
Qed.

Lemma split_date (year month rest : jsstring) :
  noSep DASH year = true -> noSep DASH month = true ->
  (rest = [] \/ exists r, rest = DASH :: r) ->
  exists more, split DASH (year ++ DASH :: month ++ rest) = year :: month :: more.
Proof.
  intros Hy Hm Hrest. rewrite (split_sep DASH year _ Hy).
  destruct Hrest as [-> | [r ->]].
  - rewrite app_nil_r, (split_single DASH month Hm). now exists [].
  - rewrite (split_sep DASH month r Hm). now eexists.
Qed.

(** [formatDate] on a non-empty string, by the shape of its components. *)
Lemma formatDate_components (s year month : jsstring) (more : list jsstring) :
  s <> [] -> split DASH s = year :: month :: more ->
  formatDate (Some s) =
    match parseInt month with
    | Some m =>
        if (0 <=? m - 1)%Z && (m - 1 <? 12)%Z
        then nth (Z.to_nat (m - 1)) months [] ++ lit " " ++ year
        else s
    | None => s
    end.
Proof.
  intros Hne Hsplit. unfold formatDate.
  destruct s as [|c s']; [congruence|].
  rewrite Hsplit. reflexivity.
Qed.

Lemma formatDate_one_component (s p : jsstring) :
  s <> [] -> split DASH s = [p] -> formatDate (Some s) = s.
Proof.
  intros Hne Hsplit. unfold formatDate.
  destruct s as [|c s']; [congruence|].
  rewrite Hsplit. reflexivity.
Qed.

Lemma readsAsDate_decide (s : jsstring) : readsAsDate s <-> readsAsDateb s = true.
Proof.
  unfold readsAsDate, readsAsDateb. split.
  - intros (year & month & rest & m & -> & Hy & Hm & Hrest & Hparse & Hrange).
    destruct (split_date year month rest Hy Hm Hrest) as [more ->].
    rewrite Hparse. apply andb_true_iff. split; apply Z.leb_le; lia.
  - destruct (split DASH s) as [|year [|month more]] eqn:Hsplit; try discriminate.
    destruct (parseInt month) as [m|] eqn:Hparse; [|discriminate].
    intros Hrange. apply andb_true_iff in Hrange as [H1 H2].
    apply Z.leb_le in H1. apply Z.leb_le in H2.
    destruct (split_two DASH s year month more Hsplit) as (rest & Hs & Hy & Hm & Hrest).
    exists year, month, rest, m. repeat split; assumption.
Qed.

Lemma formatDate_accepts (year month rest : jsstring) (m : Z) :
  noSep DASH year = true -> noSep DASH month = true ->
  (rest = [] \/ exists r, rest = DASH :: r) ->
  parseInt month = Some m -> (1 <= m <= 12)%Z ->
  formatDate (Some (year ++ DASH :: month ++ rest))
  = nth (Z.to_nat (m - 1)) months [] ++ lit " " ++ year.
Proof.
  intros Hy Hm Hrest Hparse Hrange.
  destruct (split_date year month rest Hy Hm Hrest) as [more Hsplit].
  rewrite (formatDate_components _ year month more); [|now destruct year|exact Hsplit].
  rewrite Hparse.
  assert ((0 <=? m - 1)%Z && (m - 1 <? 12)%Z = true) as ->; [|reflexivity].
  apply andb_true_iff. split; [apply Z.leb_le|apply Z.ltb_lt]; lia.
Qed.

Lemma formatDate_passthrough (s : jsstring) :
  s <> [] -> ~ readsAsDate s -> formatDate (Some s) = s.
Proof.
  intros Hne Hnot.
  rewrite readsAsDate_decide in Hnot. unfold readsAsDateb in Hnot.
  destruct (split DASH s) as [|year [|month more]] eqn:Hsplit.
  - now destruct (split_not_nil DASH s).
  - now apply (formatDate_one_component s year).
  - rewrite (formatDate_components s year month more Hne Hsplit).
    destruct (parseInt month) as [m|]; [|reflexivity].
    destruct ((0 <=? m - 1)%Z && (m - 1 <? 12)%Z) eqn:Hrange; [|reflexivity].
    exfalso. apply Hnot.
    apply andb_true_iff in Hrange as [H1 H2].
    apply Z.leb_le in H1. apply Z.ltb_lt in H2.
    apply andb_true_iff. split; apply Z.leb_le; lia.
Qed.

Lemma twoDigits_month (k : nat) :
  k < 12 ->
  noSep DASH (twoDigits (S k)) = true /\
  parseInt (twoDigits (S k)) = Some (Z.of_nat (S k)).
Proof.
  intros Hk.
  do 12 (destruct k as [|k]; [split; vm_compute; reflexivity|]).
  lia.
Qed.

(** C4. [formatDate] maps ["YYYY-MM"] with a month from 01 to 12 to the month
    abbreviation, a space and the year; maps a missing date ([null], or the
    empty string) to ["Present"]; returns every other string it cannot read
    as a date unchanged; so a job that started in 2022-03 and has no end date
    shows the range "Mar 2022 - Present" (with an en dash). *)
Theorem formatDate_contract :
  (forall (year : jsstring) (k : nat),
      noSep DASH year = true -> k < 12 ->
      formatDate (Some (year ++ DASH :: twoDigits (S k)))
      = nth k months [] ++ lit " " ++ year) /\
  formatDate (Some (lit "2022-03")) = lit "Mar 2022" /\
  formatDate None = lit "Present" /\
  formatDate (Some []) = lit "Present" /\
  (forall s : jsstring, s <> [] -> ~ readsAsDate s -> formatDate (Some s) = s) /\
  (forall (company title : jsstring) (location : option jsstring)
          (bullets : option (list Bullet)),
      dateRange (mkJob company title location (Some (lit "2022-03")) None bullets)
      = lit "Mar 2022 " ++ [EN_DASH] ++ lit " Present").
Proof.
  split; [|split; [|split; [|split; [|split]]]].
  - intros year k Hy Hk.
    destruct (twoDigits_month k Hk) as [Hm Hparse].
    rewrite <- (app_nil_r (twoDigits (S k))).
    rewrite (formatDate_accepts year (twoDigits (S k)) [] (Z.of_nat (S k)) Hy Hm);
      [|now left|exact Hparse|lia].
    replace (Z.to_nat (Z.of_nat (S k) - 1)) with k by lia. reflexivity.
  - vm_compute. reflexivity.
  - reflexivity.
  - reflexivity.
  - exact formatDate_passthrough.
  - intros. vm_compute. reflexivity.
Qed.

Lemma formatDate_contract_witness :
  (noSep DASH (lit "1999") = true /\ 11 < 12 /\
   formatDate (Some (lit "1999" ++ DASH :: twoDigits 12)) = lit "Dec 1999") /\
  (lit "2022-13" <> [] /\ ~ readsAsDate (lit "2022-13") /\
   formatDate (Some (lit "2022-13")) = lit "2022-13").
Proof.
  destruct formatDate_contract as (Hmonth & _ & _ & _ & Hpass & _).
  assert (~ readsAsDate (lit "2022-13")) as Hnot.
  { rewrite readsAsDate_decide. vm_compute. discriminate. }
  split.
  - split; [reflexivity|]. split; [lia|].
    apply (Hmonth (lit "1999") 11); [reflexivity|lia].
  - split; [discriminate|]. split; [exact Hnot|].
    apply (Hpass (lit "2022-13")); [discriminate|exact Hnot].
Defined.

(** C10. [formatDate] reads every string of two or more dash-separated
    components whose second component parses to an integer from 1 to 12: it
    renders the abbreviation of that month, a space and the first component,
    and ignores the remaining components ("2022-03-15" gives "Mar 2022");
    every other non-empty string is returned unchanged. *)
Theorem formatDate_lenient :
  (forall (year month rest : jsstring) (m : Z),
      noSep DASH year = true -> noSep DASH month = true ->
      (rest = [] \/ exists r, rest = DASH :: r) ->
      parseInt month = Some m -> (1 <= m <= 12)%Z ->
      formatDate (Some (year ++ DASH :: month ++ rest))
      = nth (Z.to_nat (m - 1)) months [] ++ lit " " ++ year) /\
  formatDate (Some (lit "2022-03-15")) = lit "Mar 2022" /\
  (forall s : jsstring, s <> [] -> ~ readsAsDate s -> formatDate (Some s) = s).
Proof.
  split; [exact formatDate_accepts|].
  split; [vm_compute; reflexivity|exact formatDate_passthrough].
Qed.

Lemma formatDate_lenient_witness :
  (noSep DASH (lit "2022") = true /\ noSep DASH (lit " 7x") = true /\
   (lit "-15" = [] \/ exists r, lit "-15" = DASH :: r) /\
   parseInt (lit " 7x") = Some 7%Z /\ (1 <= 7 <= 12)%Z /\
   formatDate (Some (lit "2022" ++ DASH :: lit " 7x" ++ lit "-15")) = lit "Jul 2022") /\
  (lit "2022--3" <> [] /\ ~ readsAsDate (lit "2022--3") /\
   formatDate (Some (lit "2022--3")) = lit "2022--3").
Proof.
  destruct formatDate_lenient as (Hread & _ & Hpass).
  assert (~ readsAsDate (lit "2022--3")) as Hnot.
  { rewrite readsAsDate_decide. vm_compute. discriminate. }
  assert (lit "-15" = [] \/ exists r, lit "-15" = DASH :: r) as Hrest.
  { right. exists (lit "15"). reflexivity. }
  split.
  - split; [reflexivity|]. split; [reflexivity|]. split; [exact Hrest|].
    split; [reflexivity|]. split; [lia|].
    apply (Hread (lit "2022") (lit " 7x") (lit "-15") 7%Z);
      [reflexivity|reflexivity|exact Hrest|reflexivity|lia].
  - split; [discriminate|]. split; [exact Hnot|].
    apply (Hpass (lit "2022--3")); [discriminate|exact Hnot].
Defined.

(** ** Optional fields: [buildHeader] and [buildEducation] *)

Lemma buildHeader_texts (personal : Personal) :
  map paragraphText (buildHeader personal)
  = [orElse (p_name personal) []]
    ++ lineOf SEP (present [p_location personal; p_phone personal; p_email personal])
    ++ lineOf SEP (present [p_linkedin personal; p_github personal; p_portfolio personal]).
Proof.
  destruct personal as [name email phone linkedin github portfolio location].
  unfold buildHeader. cbn [p_name p_email p_phone p_linkedin p_github p_portfolio p_location].
  destruct location as [[|? ?]|], phone as [[|? ?]|], email as [[|? ?]|];
    destruct linkedin as [[|? ?]|], github as [[|? ?]|], portfolio as [[|? ?]|];
    cbn; rewrite ?app_nil_r; reflexivity.
Qed.

Lemma educationEntry_texts (edu : Education) :
  map paragraphText (educationEntry edu) = educationTexts edu.
Proof.
  destruct edu as [degree field institution location gpa end_date].
  unfold educationEntry, educationTexts.
  cbn [e_degree e_field e_institution e_location e_gpa e_end_date].
  destruct field as [[|? ?]|], location as [[|? ?]|], gpa as [[|? ?]|],
    end_date as [[|? ?]|];
    cbn [truthy present omap list_omap map concat app length Nat.ltb Nat.leb
         suffixOf lineOf paragraphText children flat_map childTexts text
         boldRun textRun italicRun default from_option id];
    rewrite ?app_nil_r, <- ?app_assoc; reflexivity.
Qed.

Lemma educationEntries_texts (education : list Education) :
  map paragraphText (flat_map educationEntry education) = flat_map educationTexts education.
Proof.
  induction education as [|edu education IH]; [reflexivity|].
  cbn [flat_map]. rewrite map_app, IH, educationEntry_texts. reflexivity.
Qed.

(** C7. The header shows the name, then one line made of exactly the contact
    fields that are present (location, phone, email) and one line made of
    exactly the links that are present (linkedin, github, portfolio); a line
    with no present field is not emitted.  An education entry shows the degree
    (with the field of study only when present), the end date and the GPA
    only when present, and the institution (with the location only when
    present).  Nothing is shown in the place of a missing field. *)
Theorem missing_optional_fields_omitted :
  (forall personal : Personal,
      map paragraphText (buildHeader personal)
      = [orElse (p_name personal) []]
        ++ lineOf SEP (present [p_location personal; p_phone personal; p_email personal])
        ++ lineOf SEP (present [p_linkedin personal; p_github personal;
                                p_portfolio personal])) /\
  (forall education : list Education,
      map paragraphText (buildEducation education)
      = match education with
        | [] => []
        | _ :: _ => lit "EDUCATION" :: flat_map educationTexts education
        end).
Proof.
  split; [exact buildHeader_texts|].
  intros [|edu education]; [reflexivity|].
  unfold buildEducation. cbn [length Nat.eqb map].
  rewrite educationEntries_texts. reflexivity.
Qed.

Example header_only_name :
  map paragraphText
    (buildHeader (mkPersonal (Some (lit "Ada")) None None None None None None))
  = [lit "Ada"].
Proof. vm_compute. reflexivity. Qed.

Example header_some_fields :
  map paragraphText
    (buildHeader (mkPersonal (Some (lit "Ada")) (Some (lit "ada@example.org")) None
                    None (Some (lit "github.com/ada")) None (Some (lit "London"))))
  = [lit "Ada"; lit "London | ada@example.org"; lit "github.com/ada"].
Proof. vm_compute. reflexivity. Qed.

Example education_bare :
  map paragraphText
    (buildEducation [mkEducation (lit "BSc") None (lit "MIT") None None None])
  = [lit "EDUCATION"; lit "BSc"; lit "MIT"].
Proof. vm_compute. reflexivity. Qed.

(** ** Objects as dictionaries *)

Lemma ownProperty_set_eq (o : JSObject) (k : jsstring) (v : list jsstring) :
  ownProperty (setProperty o k v) k = Some v.
Proof.
  induction o as [|[k' v'] o IH]; cbn [setProperty ownProperty].
  - now rewrite bool_decide_eq_true_2.
  - destruct (bool_decide (k' = k)) eqn:Hk; cbn [ownProperty]; rewrite Hk; [reflexivity|exact IH].
Qed.

Lemma setProperty_absent (o : JSObject) (k : jsstring) (v : list jsstring) :
  ownProperty o k = None -> setProperty o k v = o ++ [(k, v)].
Proof.
  induction o as [|[k' v'] o IH]; cbn [setProperty ownProperty app]; [reflexivity|].
  destruct (bool_decide (k' = k)); [discriminate|].
  intros H. now rewrite (IH H).
Qed.

Lemma setProperty_twice (o : JSObject) (k : jsstring) (v v' : list jsstring) :
  setProperty (setProperty o k v) k v' = setProperty o k v'.
Proof.
  induction o as [|[k0 v0] o IH]; cbn [setProperty].
  - now rewrite bool_decide_eq_true_2.
  - destruct (bool_decide (k0 = k)) eqn:Hk; cbn [setProperty]; rewrite Hk;
      [reflexivity|now rewrite IH].
Qed.

Lemma groupSkill_ordinary (o : JSObject) (skill : Skill) :
  skillCategory skill ∉ Object_prototype_keys ->
  groupSkill o skill = Ok (addName o (skillCategory skill) (s_name skill)).
Proof.
  intros Hord. unfold groupSkill, addName, getProperty. cbv zeta.
  fold (skillCategory skill).
  destruct (ownProperty o (skillCategory skill)) as [names|] eqn:Hown.
  - rewrite Hown. reflexivity.
  - rewrite !bool_decide_eq_false_2 by exact Hord.
    rewrite ownProperty_set_eq, setProperty_twice.
    now rewrite (setProperty_absent o _ _ Hown).
Qed.

Lemma groupSkill_inherited (o : JSObject) (skill : Skill) :
  ownProperty o (skillCategory skill) = None ->
  skillCategory skill ∈ Object_prototype_keys ->
  groupSkill o skill = Throw (TypeError "byCategory[cat].push is not a function").
Proof.
  intros Hown Hinh. unfold groupSkill, getProperty. cbv zeta.
  fold (skillCategory skill).
  rewrite Hown. rewrite !bool_decide_eq_true_2 by exact Hinh.
  now rewrite Hown.
Qed.

Lemma groupSkills_snoc (skills : list Skill) (skill : Skill) :
  forall o : JSObject,
    groupSkills o (skills ++ [skill]) =
    match groupSkills o skills with
    | Ok o' => groupSkill o' skill
    | Throw e => Throw e
    end.
Proof.
  induction skills as [|sk skills IH]; intros o; cbn [app groupSkills].
  - now destruct (groupSkill o skill).
  - destruct (groupSkill o sk); [apply IH|reflexivity].
Qed.

(** ** Grouping in first-seen order *)

Lemma In_jsstring_dec (c : jsstring) (l : list jsstring) : {In c l} + {~ In c l}.
Proof. apply in_dec. intros x y. exact (decide (x = y)). Qed.

Lemma firstSeen_In (c : jsstring) (l : list jsstring) : In c (firstSeen l) <-> In c l.
Proof.
  induction l as [|a l IH]; [reflexivity|].
  cbn [firstSeen In]. rewrite filter_In, IH.
  destruct (decide (c = a)) as [->|Hne].
  - split; intros _; now left.
  - rewrite bool_decide_eq_false_2 by exact Hne. cbn [negb].
    split; [intros [H|[H _]]|intros [H|H]]; auto; congruence.
Qed.

Lemma firstSeen_NoDup (l : list jsstring) : List.NoDup (firstSeen l).
Proof.
  induction l as [|a l IH]; cbn [firstSeen]; constructor.
  - rewrite filter_In. intros [_ H]. now rewrite bool_decide_eq_true_2 in H.
  - now apply List.NoDup_filter.
Qed.

Lemma firstSeen_snoc (c : jsstring) (l : list jsstring) :
  firstSeen (l ++ [c]) = firstSeen l ++ (if In_jsstring_dec c l then [] else [c]).
Proof.
  induction l as [|a l IH].
  - cbn. now destruct (In_jsstring_dec c []).
  - cbn [app firstSeen]. rewrite IH, List.filter_app. cbn [app]. f_equal. f_equal.
    destruct (In_jsstring_dec c l) as [Hl|Hl];
      destruct (In_jsstring_dec c (a :: l)) as [Hal|Hal]; cbn [List.filter].
    + reflexivity.
    + exfalso. apply Hal. now right.
    + destruct Hal as [->|Hal]; [|contradiction].
      now rewrite bool_decide_eq_true_2.
    + assert (c <> a) as Hne by (intros ->; apply Hal; now left).
      now rewrite bool_decide_eq_false_2.
Qed.

Lemma namesIn_snoc (cat : jsstring) (skills : list Skill) (skill : Skill) :
  namesIn cat (skills ++ [skill]) =
  namesIn cat skills ++ (if decide (skillCategory skill = cat) then [s_name skill] else []).
Proof.
  unfold namesIn. rewrite List.filter_app, map_app. f_equal.
  cbn [List.filter]. destruct (decide (skillCategory skill = cat)) as [H|H].
  - now rewrite bool_decide_eq_true_2.
  - now rewrite bool_decide_eq_false_2.
Qed.

Lemma namesIn_absent (cat : jsstring) (skills : list Skill) :
  ~ In cat (map skillCategory skills) -> namesIn cat skills = [].
Proof.
  unfold namesIn. induction skills as [|sk skills IH]; intros Hnot; [reflexivity|].
  cbn [List.filter]. rewrite bool_decide_eq_false_2.
  - apply IH. intros H. apply Hnot. now right.
  - intros H. apply Hnot. now left.
Qed.

Section Groups.
Variable f : jsstring -> list jsstring.

Lemma ownProperty_groups_absent (c : jsstring) (l : list jsstring) :
  ~ In c l -> ownProperty (map (fun x => (x, f x)) l) c = None.
Proof.
  induction l as [|a l IH]; intros Hnot; [reflexivity|].
  cbn [map ownProperty]. rewrite bool_decide_eq_false_2.
  - apply IH. intros H. apply Hnot. now right.
  - intros H. apply Hnot. now left.
Qed.

Lemma ownProperty_groups_present (c : jsstring) (l : list jsstring) :
  In c l -> ownProperty (map (fun x => (x, f x)) l) c = Some (f c).
Proof.
  induction l as [|a l IH]; intros Hin; [destruct Hin|].
  cbn [map ownProperty]. destruct (decide (a = c)) as [->|Hne].
  - now rewrite bool_decide_eq_true_2.
  - rewrite bool_decide_eq_false_2 by exact Hne.
    apply IH. destruct Hin; [contradiction|assumption].
Qed.

Lemma setProperty_groups (c : jsstring) (v : list jsstring) (l : list jsstring) :
  List.NoDup l -> In c l ->
  setProperty (map (fun x => (x, f x)) l) c v
  = map (fun x => (x, if decide (c = x) then v else f x)) l.
Proof.
  induction l as [|a l IH]; intros Hnd Hin; [destruct Hin|].
  apply List.NoDup_cons_iff in Hnd as [Ha Hnd].
  cbn [map setProperty]. destruct (decide (a = c)) as [->|Hne].
  - rewrite bool_decide_eq_true_2 by reflexivity.
    destruct (decide (c = c)) as [_|Hcc]; [|contradiction].
    f_equal. apply map_ext_in. intros x Hx.
    destruct (decide (c = x)) as [->|_]; [contradiction|reflexivity].
  - rewrite bool_decide_eq_false_2 by exact Hne.
    destruct (decide (c = a)) as [->|_]; [contradiction|].
    f_equal. apply IH; [exact Hnd|]. destruct Hin; [contradiction|assumption].
Qed.

End Groups.

Lemma firstSeenGroups_snoc (skills : list Skill) (skill : Skill) :
  firstSeenGroups (skills ++ [skill])
  = addName (firstSeenGroups skills) (skillCategory skill) (s_name skill).
Proof.
  unfold firstSeenGroups, addName.
  rewrite map_app. cbn [map]. rewrite firstSeen_snoc.
  set (cats := map skillCategory skills).
  set (c := skillCategory skill).
  destruct (In_jsstring_dec c cats) as [Hin|Hnot].
  - rewrite app_nil_r.
    rewrite (ownProperty_groups_present _ c (firstSeen cats)) by now apply firstSeen_In.
    rewrite setProperty_groups; [|apply firstSeen_NoDup|now apply firstSeen_In].
    apply map_ext. intros x. rewrite namesIn_snoc. fold c.
    destruct (decide (c = x)) as [->|_]; [reflexivity|now rewrite app_nil_r].
  - rewrite (ownProperty_groups_absent _ c (firstSeen cats))
      by (rewrite firstSeen_In; exact Hnot).
    rewrite map_app. cbn [map]. f_equal.
    + apply map_ext_in. intros x Hx. rewrite namesIn_snoc. fold c.
      destruct (decide (c = x)) as [<-|_]; [|now rewrite app_nil_r].
      exfalso. apply Hnot. now apply firstSeen_In.
    + rewrite namesIn_snoc. fold c. rewrite (namesIn_absent c skills Hnot).
      destruct (decide (c = c)); [reflexivity|contradiction].
Qed.

Lemma ordinaryCategories_app (a b : list Skill) :
  ordinaryCategories (a ++ b) = ordinaryCategories a && ordinaryCategories b.
Proof. apply forallb_app. Qed.

Lemma groupSkills_firstSeen (skills : list Skill) :
  ordinaryCategories skills = true ->
  groupSkills [] skills = Ok (firstSeenGroups skills).
Proof.
  induction skills as [|skill skills IH] using rev_ind; intros Hord; [reflexivity|].
  rewrite ordinaryCategories_app in Hord. apply andb_true_iff in Hord as [Hs Hk].
  rewrite groupSkills_snoc, (IH Hs), firstSeenGroups_snoc.
  apply groupSkill_ordinary.
  unfold ordinaryCategories in Hk. cbn [forallb] in Hk.
  rewrite andb_true_r in Hk. apply negb_true_iff in Hk.
  now apply bool_decide_eq_false in Hk.
Qed.

(** ** Sorting by a numeric key *)

Section SortProperties.
Context {A : Type} (key : A -> Z) (cmp : A -> A -> Z).
Hypothesis cmp_key : forall a b, cmp a b = (key a - key b)%Z.

Lemma sortInsert_perm (x : A) (l : list A) : Permutation (sortInsert cmp x l) (x :: l).
Proof.
  induction l as [|y l IH]; cbn [sortInsert]; [reflexivity|].
  destruct (0 <? cmp x y)%Z; [|reflexivity].
  rewrite IH. apply perm_swap.
Qed.

Lemma sort_perm (l : list A) : Permutation (sort cmp l) l.
Proof.
  induction l as [|x l IH]; [reflexivity|].
  cbn [sort foldr]. fold (sort cmp l). rewrite sortInsert_perm. now constructor.
Qed.

Lemma sortInsert_sorted (x : A) (l : list A) :
  StronglySorted (keyLe key) l -> StronglySorted (keyLe key) (sortInsert cmp x l).
Proof.
  induction l as [|y l IH]; intros Hs; cbn [sortInsert].
  - repeat constructor.
  - apply StronglySorted_inv in Hs as [Hl Hy].
    destruct (0 <? cmp x y)%Z eqn:Hc.
    + apply Z.ltb_lt in Hc. rewrite cmp_key in Hc.
      constructor; [now apply IH|].
      apply (List.Forall_forall (keyLe key y)). intros z Hz.
      apply (Permutation_in _ (sortInsert_perm x l)) in Hz.
      destruct Hz as [<-|Hz]; [unfold keyLe; lia|].
      now apply (proj1 (List.Forall_forall (keyLe key y) l) Hy).
    + apply Z.ltb_ge in Hc. rewrite cmp_key in Hc.
      constructor; [now constructor|].
      constructor; [unfold keyLe; lia|].
      apply (List.Forall_forall (keyLe key x)). intros z Hz.
      pose proof (proj1 (List.Forall_forall (keyLe key y) l) Hy z Hz) as Hyz.
      unfold keyLe in *. lia.
Qed.

Lemma sort_sorted (l : list A) : StronglySorted (keyLe key) (sort cmp l).
Proof.
  induction l as [|x l IH]; [constructor|].
  cbn [sort foldr]. fold (sort cmp l). now apply sortInsert_sorted.
Qed.

End SortProperties.

(** ** The skills section: [buildSkills] *)

Lemma firstSeenGroups_keys (skills : list Skill) (g : jsstring * list jsstring) :
  In g (firstSeenGroups skills) -> In g.1 (map skillCategory skills).
Proof.
  unfold firstSeenGroups. rewrite in_map_iff. intros (c & <- & Hc).
  now apply firstSeen_In.
Qed.

Lemma Object_entries_no_index (o : JSObject) :
  (forall g, In g o -> isArrayIndex g.1 = false) -> Object_entries o = o.
Proof.
  intros Hno. unfold Object_entries.
  assert (List.filter (fun kv => isArrayIndex kv.1) o = []) as ->.
  { induction o as [|g o IH]; [reflexivity|].
    cbn [List.filter]. rewrite (Hno g) by now left.
    apply IH. intros g' Hg'. apply Hno. now right. }
  cbn [sort foldr app].
  induction o as [|g o IH]; [reflexivity|].
  cbn [List.filter]. rewrite (Hno g) by now left. cbn [negb]. f_equal.
  apply IH. intros g' Hg'. apply Hno. now right.
Qed.

Lemma Object_entries_order (o : JSObject) :
  exists indexed,
    Object_entries o = indexed ++ List.filter (fun kv => negb (isArrayIndex kv.1)) o /\
    Permutation indexed (List.filter (fun kv => isArrayIndex kv.1) o) /\
    StronglySorted (fun a b => (indexKey a <= indexKey b)%N) indexed.
Proof.
  exists (sort indexOrder (List.filter (fun kv => isArrayIndex kv.1) o)).
  split; [reflexivity|]. split.
  - apply sort_perm.
  - pose proof (sort_sorted (fun g => Z.of_N (indexKey g)) indexOrder
                  (fun a b => eq_refl) (List.filter (fun kv => isArrayIndex kv.1) o)) as Hs.
    revert Hs. generalize (sort indexOrder (List.filter (fun kv => isArrayIndex kv.1) o)).
    intros l Hs. induction Hs as [|a l Hl IH Ha]; constructor; [exact IH|].
    eapply List.Forall_impl; [|exact Ha].
    intros b Hb. unfold keyLe in Hb. lia.
Qed.

(** C6 (as the code has it). For every skills list in which no category
    names a property inherited from [Object.prototype], the skills section is
    the heading followed by one line per category, with the names of each
    category in input order ("Other" standing for a missing category): first
    the categories that are array indices, in ascending numeric order, then
    all other categories in first-seen order.  In particular, when no
    category is an array index the categories appear in first-seen order. *)
Theorem buildSkills_grouping (skills : list Skill) :
  ordinaryCategories skills = true ->
  exists indexed,
    buildSkills skills
    = Ok (match skills with
          | [] => []
          | _ :: _ =>
              skillsSection
                (indexed ++
                 List.filter (fun g => negb (isArrayIndex g.1)) (firstSeenGroups skills))
          end) /\
    Permutation indexed (List.filter (fun g => isArrayIndex g.1) (firstSeenGroups skills)) /\
    StronglySorted (fun a b => (indexKey a <= indexKey b)%N) indexed /\
    (noIndexCategories skills = true ->
     buildSkills skills
     = Ok (match skills with
           | [] => []
           | _ :: _ => skillsSection (firstSeenGroups skills)
           end)).
Proof.
  intros Hord.
  destruct (Object_entries_order (firstSeenGroups skills)) as (indexed & Hent & Hperm & Hsorted).
  exists indexed.
  assert (buildSkills skills
          = Ok (match skills with
                | [] => []
                | _ :: _ => skillsSection (Object_entries (firstSeenGroups skills))
                end)) as Hbuild.
  { unfold buildSkills. rewrite (groupSkills_firstSeen skills Hord).
    now destruct skills. }
  split; [|split; [exact Hperm|split; [exact Hsorted|]]].
  - rewrite Hbuild, Hent. reflexivity.
  - intros Hnoidx. rewrite Hbuild.
    rewrite Object_entries_no_index; [reflexivity|].
    intros g Hg. apply firstSeenGroups_keys in Hg.
    apply in_map_iff in Hg as (sk & Hsk & Hin).
    unfold noIndexCategories in Hnoidx. rewrite forallb_forall in Hnoidx.
    specialize (Hnoidx sk Hin). apply negb_true_iff in Hnoidx. now rewrite <- Hsk.
Qed.

(** C6 as stated fails on the code: a category that is an array index is
    listed before a category seen earlier. *)
Lemma buildSkills_index_category_first :
  map fst (firstSeenGroups demoSkills) = [lit "Languages"; lit "2024"] /\
  buildSkills demoSkills <> Ok (skillsSection (firstSeenGroups demoSkills)) /\
  exists section,
    buildSkills demoSkills = Ok section /\
    map paragraphText section
    = [lit "TECHNICAL SKILLS"; lit "2024: Forecasting"; lit "Languages: Python, SQL"].
Proof.
  split; [vm_compute; reflexivity|]. split.
  - vm_compute. discriminate.
  - eexists. split; vm_compute; reflexivity.
Qed.

Lemma buildSkills_grouping_witness :
  ordinaryCategories demoSkills = true /\
  exists indexed,
    buildSkills demoSkills
    = Ok (skillsSection
            (indexed ++
             List.filter (fun g => negb (isArrayIndex g.1)) (firstSeenGroups demoSkills))) /\
    Permutation indexed
      (List.filter (fun g => isArrayIndex g.1) (firstSeenGroups demoSkills)) /\
    StronglySorted (fun a b => (indexKey a <= indexKey b)%N) indexed.
Proof.
  split; [reflexivity|].
  destruct (buildSkills_grouping demoSkills eq_refl) as (indexed & Hbuild & Hperm & Hsorted & _).
  exists indexed. split; [exact Hbuild|]. split; [exact Hperm|exact Hsorted].
Defined.

(** A category named like a member of [Object.prototype] makes the grouping
    loop throw: the inherited value is truthy and has no [push]. *)
Example buildSkills_inherited_category :
  buildSkills [mkSkill (lit "Python") (Some (lit "constructor"))]
  = Throw (TypeError "byCategory[cat].push is not a function").
Proof. vm_compute. reflexivity. Qed.

(** ** Failures while writing the document *)

Section GeneratorProperties.
Variable toLowerCase : jsstring -> jsstring.
Variable toBuffer : Document -> Result (list N).
Variable io : WriteOutcome.

Lemma write_tail_failure (doc : Document) (outputPath line : jsstring)
    (w w' : World) (e : JSError) :
  (buffer <- liftResult (toBuffer doc) ;;
   _ <- writeFileSync io outputPath buffer ;;
   console_log line) w = (Throw e, w') ->
  console w' = console w /\ FailureTrace toBuffer io outputPath e w w'.
Proof.
  unfold bind, liftResult, writeFileSync, console_log.
  destruct (toBuffer doc) as [buffer|e0] eqn:Hpack.
  - destruct io as [|e1|n e1] eqn:Hio; intros H; [discriminate H| |];
      injection H as <- <-.
    + split; [reflexivity|]. now apply FailedBeforeWrite.
    + split; [reflexivity|].
      now apply (FailedDuringWrite toBuffer _ outputPath e1 w _ n doc buffer).
  - intros H; injection H as <- <-. split; [reflexivity|]. now apply FailedBeforeWrite.
Qed.

Lemma build_then_write_failure (skills : Result (list Paragraph))
    (k : list Paragraph -> IO unit) (outputPath : jsstring)
    (w w' : World) (e : JSError) :
  (forall ps w1 w1' e1, k ps w1 = (Throw e1, w1') ->
     console w1' = console w1 /\ FailureTrace toBuffer io outputPath e1 w1 w1') ->
  (ps <- liftResult skills ;; k ps) w = (Throw e, w') ->
  console w' = console w /\ FailureTrace toBuffer io outputPath e w w'.
Proof.
  intros Hk. unfold bind at 1. unfold liftResult.
  destruct skills as [ps|e0].
  - apply Hk.
  - intros H; injection H as <- <-. split; [reflexivity|]. now apply FailedBeforeWrite.
Qed.

Lemma run_failure (docType : jsstring) (data : Payload) (outputFile : jsstring)
    (w w' : World) (e : JSError) :
  run toLowerCase toBuffer io docType data outputFile w = (Throw e, w') ->
  console w' = console w /\ FailureTrace toBuffer io outputFile e w w'.
Proof.
  unfold run.
  destruct (bool_decide (docType = lit "coverletter"));
    [|destruct (bool_decide (docType = lit "cv"))].
  - unfold generateCoverLetter. apply write_tail_failure.
  - unfold generateCV. apply build_then_write_failure.
    intros ps w1 w1' e1. apply write_tail_failure.
  - unfold generateResume. apply build_then_write_failure.
    intros ps w1 w1' e1. apply write_tail_failure.
Qed.

Lemma generateResume_document (data : Payload) (outputPath : jsstring) (w : World) :
  generateResume toLowerCase toBuffer io data outputPath w
  = writeDocument toBuffer io (resumeDocument toLowerCase data)
      (lit "Resume generated: ") outputPath w.
Proof.
  unfold generateResume, writeDocument, resumeDocument, bind, liftResult.
  destruct (buildSkills (default [] (d_skills data))); reflexivity.
Qed.

Lemma generateCV_document (data : Payload) (outputPath : jsstring) (w : World) :
  generateCV toLowerCase toBuffer io data outputPath w
  = writeDocument toBuffer io (cvDocument toLowerCase data)
      (lit "CV generated: ") outputPath w.
Proof.
  unfold generateCV, writeDocument, cvDocument, bind, liftResult.
  destruct (buildSkills (default [] (d_skills data))); reflexivity.
Qed.

Lemma generateCoverLetter_document (data : Payload) (outputPath : jsstring) (w : World) :
  generateCoverLetter toBuffer io data outputPath w
  = writeDocument toBuffer io (Ok (coverLetterDocument data))
      (lit "Cover letter generated: ") outputPath w.
Proof. reflexivity. Qed.

Lemma run_document (docType : jsstring) (data : Payload) (outputFile : jsstring)
    (w : World) :
  run toLowerCase toBuffer io docType data outputFile w
  = writeDocument toBuffer io (documentOf toLowerCase docType data)
      (successLine docType) outputFile w.
Proof.
  unfold run, documentOf, successLine.
  destruct (bool_decide (docType = lit "coverletter"));
    [apply generateCoverLetter_document|].
  destruct (bool_decide (docType = lit "cv"));
    [apply generateCV_document|apply generateResume_document].
Qed.

(** C5 (as the code has it). When a generator fails, the process reports the
    error that was raised, unchanged, and exits with status 1, and nothing is
    logged.  A failure before the write (building the sections, packing the
    document, opening the output file) returns that error and leaves the
    world exactly as it was.  A failure during the write returns the error of
    the write and leaves at the output path the bytes written until then,
    whatever was there before: the document is written directly to the
    output path. *)
Theorem generation_failure (docType : jsstring) (data : Payload) (outputFile : jsstring)
    (w : World) :
  (forall (e : JSError) (w' : World),
      run toLowerCase toBuffer io docType data outputFile w = (Throw e, w') ->
      main toLowerCase toBuffer io docType data outputFile w = mkExit 1 (Some e) w' /\
      console w' = console w /\
      FailureTrace toBuffer io outputFile e w w') /\
  (forall e : JSError,
      documentOf toLowerCase docType data = Throw e ->
      run toLowerCase toBuffer io docType data outputFile w = (Throw e, w)) /\
  (forall (doc : Document) (e : JSError),
      documentOf toLowerCase docType data = Ok doc -> toBuffer doc = Throw e ->
      run toLowerCase toBuffer io docType data outputFile w = (Throw e, w)) /\
  (forall (doc : Document) (buffer : list N) (e : JSError),
      documentOf toLowerCase docType data = Ok doc -> toBuffer doc = Ok buffer ->
      io = OpenFails e ->
      run toLowerCase toBuffer io docType data outputFile w = (Throw e, w)) /\
  (forall (doc : Document) (buffer : list N) (n : nat) (e : JSError),
      documentOf toLowerCase docType data = Ok doc -> toBuffer doc = Ok buffer ->
      io = WriteFailsAfter n e ->
      run toLowerCase toBuffer io docType data outputFile w
      = (Throw e, mkWorld (<[outputFile := take n buffer]> (files w)) (console w))).
Proof.
  split; [|split; [|split; [|split]]].
  - intros e w' Hrun. split.
    + unfold main. now rewrite Hrun.
    + now apply (run_failure docType data).
  - intros e Hdoc. rewrite run_document, Hdoc. reflexivity.
  - intros doc e Hdoc Hpack. rewrite run_document, Hdoc.
    unfold writeDocument, bind, liftResult. now rewrite Hpack.
  - intros doc buffer e Hdoc Hpack Hio. rewrite run_document, Hdoc.
    unfold writeDocument, bind, liftResult, writeFileSync. now rewrite Hpack, Hio.
  - intros doc buffer n e Hdoc Hpack Hio. rewrite run_document, Hdoc.
    unfold writeDocument, bind, liftResult, writeFileSync. now rewrite Hpack, Hio.
Qed.

End GeneratorProperties.

(** C5 as stated fails on the code: when the write fails half way, the error
    is propagated but the output path, absent before, now holds the first
    bytes of the document. *)
Lemma generateResume_leaves_partial_file :
  exists w',
    generateResume toLowerCaseASCII toyPacker (WriteFailsAfter 2 diskFull)
      emptyPayload outputDocx freshWorld = (Throw diskFull, w') /\
    files freshWorld !! outputDocx = None /\
    files w' !! outputDocx = Some [80; 75]%N /\
    [80; 75]%N <> zipSignature.
Proof.
  exists (mkWorld (<[outputDocx := [80; 75]%N]> ∅) []).
  split; [reflexivity|]. split; [reflexivity|]. split.
  - cbn [files]. apply lookup_insert_eq.
  - discriminate.
Qed.

Lemma generation_failure_witness :
  let partial := mkWorld (<[outputDocx := [80; 75]%N]> (files worldWithNotes)) [] in
  (* the write fails after two bytes *)
  (run toLowerCaseASCII toyPacker (WriteFailsAfter 2 diskFull) (lit "resume")
     demoPayload outputDocx worldWithNotes = (Throw diskFull, partial) /\
   main toLowerCaseASCII toyPacker (WriteFailsAfter 2 diskFull) (lit "resume")
     demoPayload outputDocx worldWithNotes = mkExit 1 (Some diskFull) partial /\
   files partial !! outputDocx = Some [80; 75]%N) /\
  (* the sections cannot be built *)
  run toLowerCaseASCII toyPacker WriteCompletes (lit "resume")
    inheritedPayload outputDocx worldWithNotes
  = (Throw (TypeError "byCategory[cat].push is not a function"), worldWithNotes) /\
  (* the packer rejects the document *)
  run toLowerCaseASCII failingPacker WriteCompletes (lit "cv")
    demoPayload outputDocx worldWithNotes
  = (Throw (PackerError "cannot serialise"), worldWithNotes) /\
  (* the output file cannot be opened *)
  run toLowerCaseASCII toyPacker (OpenFails accessDenied) (lit "coverletter")
    demoPayload outputDocx worldWithNotes
  = (Throw accessDenied, worldWithNotes).
Proof.
  cbv zeta.
  destruct (documentOf toLowerCaseASCII (lit "resume") demoPayload) as [doc|e] eqn:Hdoc;
    [|discriminate Hdoc].
  destruct (documentOf toLowerCaseASCII (lit "cv") demoPayload) as [cv|e] eqn:Hcv;
    [|discriminate Hcv].
  destruct (generation_failure toLowerCaseASCII toyPacker (WriteFailsAfter 2 diskFull)
              (lit "resume") demoPayload outputDocx worldWithNotes)
    as (Hfail & _ & _ & _ & Hwrite).
  pose proof (Hwrite doc zipSignature 2 diskFull Hdoc eq_refl eq_refl) as Hrun.
  change (take 2 zipSignature) with [80; 75]%N in Hrun.
  split; [|split; [|split]].
  - split; [exact Hrun|]. split; [exact (proj1 (Hfail _ _ Hrun))|].
    apply lookup_insert_eq.
  - destruct (generation_failure toLowerCaseASCII toyPacker WriteCompletes
                (lit "resume") inheritedPayload outputDocx worldWithNotes)
      as (_ & Hbuild & _).
    apply Hbuild. reflexivity.
  - destruct (generation_failure toLowerCaseASCII failingPacker WriteCompletes
                (lit "cv") demoPayload outputDocx worldWithNotes)
      as (_ & _ & Hpack & _).
    apply (Hpack cv); [exact Hcv|reflexivity].
  - destruct (generation_failure toLowerCaseASCII toyPacker (OpenFails accessDenied)
                (lit "coverletter") demoPayload outputDocx worldWithNotes)
      as (_ & _ & _ & Hopen & _).
    apply (Hopen (coverLetterDocument demoPayload) zipSignature); reflexivity.
Defined.

(** * Further properties of the template *)

(** ** What the annotator emphasizes *)

Lemma startsWith_take (t s : jsstring) :
  startsWith s t = true -> take (length t) s = t.
Proof.
  revert s. induction t as [|c t IH]; intros s H; [reflexivity|].
  destruct s as [|d s]; [discriminate|].
  cbn [startsWith] in H. apply andb_true_iff in H as [Hc Ht].
  apply N.eqb_eq in Hc. subst d. cbn [length take]. now rewrite (IH s Ht).
Qed.

Lemma indexOf_found (s t : jsstring) (i : nat) :
  indexOf s t = Some i -> take (length t) (drop i s) = t.
Proof.
  revert i. induction s as [|c s IH]; intros i H.
  - cbn [indexOf] in H. destruct (startsWith [] t) eqn:Hs; [|discriminate].
    injection H as <-. now apply startsWith_take.
  - cbn [indexOf] in H. destruct (startsWith (c :: s) t) eqn:Hs.
    + injection H as <-. now apply startsWith_take.
    + destruct (indexOf s t) as [j|]; [|discriminate].
      injection H as <-. cbn [drop]. now apply IH.
Qed.

Lemma includes_empty (s : jsstring) : includes s [] = true.
Proof. unfold includes. now destruct s. Qed.

Lemma isASCII_take_drop (s : jsstring) (n : nat) :
  isASCII s = true -> isASCII (take n s) = true /\ isASCII (drop n s) = true.
Proof.
  intros H. rewrite <- (take_drop n s) in H. unfold isASCII in *.
  rewrite forallb_app in H. now apply andb_true_iff in H.
Qed.

Lemma isASCII_take (s : jsstring) (n : nat) : isASCII s = true -> isASCII (take n s) = true.
Proof. intros H. exact (proj1 (isASCII_take_drop s n H)). Qed.

Lemma isASCII_drop (s : jsstring) (n : nat) : isASCII s = true -> isASCII (drop n s) = true.
Proof. intros H. exact (proj2 (isASCII_take_drop s n H)). Qed.

Lemma toLowerCaseASCII_length (s : jsstring) : length (toLowerCaseASCII s) = length s.
Proof. unfold toLowerCaseASCII. apply length_map. Qed.

Lemma toLowerCaseASCII_slice (s : jsstring) (a b : nat) :
  toLowerCaseASCII (slice s a b) = slice (toLowerCaseASCII s) a b.
Proof.
  unfold toLowerCaseASCII, slice.
  set (g := fun c : N => if (65 <=? c)%N && (c <=? 90)%N then (c + 32)%N else c).
  change (map g (take (b - a) (drop a s))) with (g <$> take (b - a) (drop a s)).
  now rewrite fmap_take, fmap_drop.
Qed.

Section EmphasisContent.
Variable toLowerCase : jsstring -> jsstring.
Hypothesis ascii_lower : forall s, isASCII s = true -> toLowerCase s = toLowerCaseASCII s.
Variable allowed : list jsstring.

Lemma matched_slice (s term : jsstring) (idx : nat) :
  isASCII s = true -> isASCII term = true ->
  indexOf (toLowerCase s) (toLowerCase term) = Some idx ->
  toLowerCaseASCII (slice s idx (idx + length term)) = toLowerCaseASCII term.
Proof.
  intros Hs Ht H. rewrite (ascii_lower s Hs), (ascii_lower term Ht) in H.
  apply indexOf_found in H. rewrite toLowerCaseASCII_length in H.
  rewrite toLowerCaseASCII_slice. unfold slice.
  replace (idx + length term - idx) with (length term) by lia. exact H.
Qed.

Lemma segStep_content (term : jsstring) (mid : nat) (st : LoopState) (seg : Segment) :
  term <> [] -> isASCII term = true -> In term allowed ->
  Forall (segmentFrom allowed) (newSegments st) ->
  segmentFrom allowed seg ->
  Forall (segmentFrom allowed) (newSegments (segStep toLowerCase term mid st seg)).
Proof.
  intros Hne Hascii Hin Hacc Hseg.
  assert (Forall (segmentFrom allowed) (newSegments (push st seg))) as Hpush.
  { cbn [push newSegments]. apply Forall_app. split; [exact Hacc|]. now constructor. }
  destruct Hseg as (Hsa & _ & _).
  unfold segStep.
  destruct (seg_bold seg || didBold st); [exact Hpush|].
  destruct (indexOf (toLowerCase (seg_text seg)) (toLowerCase term)) as [idx|] eqn:Hidx;
    [|exact Hpush].
  destruct (mid <=? default 0 (startOffset seg) + idx); [exact Hpush|].
  cbn [newSegments]. apply Forall_app. split; [exact Hacc|].
  pose proof (matched_slice (seg_text seg) term idx Hsa Hascii Hidx) as Hmatch.
  apply Forall_app. split; [|apply Forall_app; split].
  - destruct (truthy (Some (slice (seg_text seg) 0 idx))) eqn:Hb; [|constructor].
    constructor; [|constructor]. split; [|split]; cbn [seg_text seg_bold].
    + unfold slice. now apply isASCII_take, isASCII_drop.
    + now apply truthy_Some_true.
    + discriminate.
  - constructor; [|constructor]. split; [|split]; cbn [seg_text seg_bold].
    + unfold slice. now apply isASCII_take, isASCII_drop.
    + intros Hnil. rewrite Hnil in Hmatch. destruct term; [congruence|discriminate].
    + intros _. now exists term.
  - destruct (truthy (Some (sliceFrom (seg_text seg) (idx + length term)))) eqn:Ha;
      [|constructor].
    constructor; [|constructor]. split; [|split]; cbn [seg_text seg_bold].
    + unfold sliceFrom. now apply isASCII_drop.
    + now apply truthy_Some_true.
    + discriminate.
Qed.

Lemma pass_content (term : jsstring) (mid : nat) (segs : list Segment) :
  term <> [] -> isASCII term = true -> In term allowed ->
  forall st : LoopState,
    Forall (segmentFrom allowed) (newSegments st) ->
    Forall (segmentFrom allowed) segs ->
    Forall (segmentFrom allowed)
      (newSegments (fold_left (segStep toLowerCase term mid) segs st)).
Proof.
  intros Hne Hascii Hin.
  induction segs as [|seg segs IH]; intros st Hacc Hsegs; [exact Hacc|].
  cbn [fold_left]. apply Forall_cons in Hsegs as [Hseg Hsegs].
  apply IH; [|exact Hsegs]. now apply segStep_content.
Qed.

Lemma boldLoop_content (terms : list jsstring) (maxBolds mid : nat) :
  (forall t, In t terms -> t <> [] /\ isASCII t = true /\ In t allowed) ->
  forall (segs : list Segment) (bc : nat),
    Forall (segmentFrom allowed) segs ->
    Forall (segmentFrom allowed) (boldLoop toLowerCase terms maxBolds mid segs bc).
Proof.
  induction terms as [|term rest IH]; intros Hterms segs bc Hsegs; [exact Hsegs|].
  cbn [boldLoop]. destruct (maxBolds <=? bc); [exact Hsegs|].
  destruct (Hterms term (or_introl eq_refl)) as (Hne & Hascii & Hin).
  apply IH; [intros t Ht; apply Hterms; now right|].
  destruct (didBold _); [|exact Hsegs].
  apply pass_content; [exact Hne|exact Hascii|exact Hin|constructor|exact Hsegs].
Qed.

End EmphasisContent.

Lemma PRIORITY_BOLD_ascii (t : jsstring) : In t PRIORITY_BOLD -> isASCII t = true.
Proof.
  assert (forallb isASCII PRIORITY_BOLD = true) as H by (vm_compute; reflexivity).
  rewrite forallb_forall in H. apply H.
Qed.

Lemma toLowerCaseDotted_ascii (s : jsstring) :
  isASCII s = true -> toLowerCaseDotted s = toLowerCaseASCII s.
Proof.
  induction s as [|c s IH]; intros H; [reflexivity|].
  cbn [isASCII forallb] in H. apply andb_true_iff in H as [Hc Hs].
  unfold toLowerCaseDotted. cbn [flat_map]. fold (toLowerCaseDotted s).
  rewrite (IH Hs).
  replace (c =? 304)%N with false; [reflexivity|].
  symmetry. apply N.eqb_neq. apply N.ltb_lt in Hc. lia.
Qed.

Lemma PRIORITY_BOLD_nonempty (t : jsstring) : In t PRIORITY_BOLD -> t <> [].
Proof.
  assert (forallb (fun t => negb (length t =? 0)) PRIORITY_BOLD = true) as H
    by (vm_compute; reflexivity).
  rewrite forallb_forall in H. intros Hin Hnil. specialize (H t Hin).
  now rewrite Hnil in H.
Qed.

Lemma splitBulletWithBolds_loop
    (toLowerCase : jsstring -> jsstring) (bulletText : jsstring)
    (matchedKeywords : option (list jsstring)) (maxSpans : option nat) :
  bulletText <> [] ->
  existsb (startsWith (trim bulletText)) SKIP_LEADERSHIP_STARTS = false ->
  splitBulletWithBolds toLowerCase (Some bulletText) matchedKeywords maxSpans
  = map segmentRun
      (boldLoop toLowerCase (sortedTerms toLowerCase matchedKeywords)
         (default 2 maxSpans) (length bulletText / 2)
         [mkSegment bulletText false (Some 0)] 0).
Proof.
  intros Hne Hlead. unfold splitBulletWithBolds, sortedTerms.
  destruct bulletText as [|c s]; [congruence|].
  rewrite Hlead. reflexivity.
Qed.

Lemma sortedTerms_In (toLowerCase : jsstring -> jsstring)
    (matchedKeywords : option (list jsstring)) (t : jsstring) :
  In t (sortedTerms toLowerCase matchedKeywords) <->
  In t PRIORITY_BOLD /\ isCandidate toLowerCase matchedKeywords t = true.
Proof.
  unfold sortedTerms. rewrite <- filter_In.
  generalize (List.filter (isCandidate toLowerCase matchedKeywords) PRIORITY_BOLD).
  intros l. split; apply Permutation_in; [|symmetry]; apply sort_perm.
Qed.

(** X1. For an ASCII bullet (on ASCII strings the runtime's [toLowerCase]
    is the ASCII one, and only this is assumed of it): every span returned
    for a non-empty bullet is non-empty, and the text of every emphasized span
    is, up to case, a term of [PRIORITY_BOLD] that passes the filter of
    [termsToCheck] (deny list and matched keywords). *)
Theorem emphasized_spans_are_priority_terms
    (toLowerCase : jsstring -> jsstring)
    (bulletText : jsstring) (matchedKeywords : option (list jsstring))
    (maxSpans : option nat) (span : TextRun) :
  (forall s, isASCII s = true -> toLowerCase s = toLowerCaseASCII s) ->
  isASCII bulletText = true ->
  bulletText <> [] ->
  In span (splitBulletWithBolds toLowerCase (Some bulletText) matchedKeywords maxSpans) ->
  text span <> [] /\
  (emphasized span = true ->
   exists term,
     In term PRIORITY_BOLD /\
     isCandidate toLowerCase matchedKeywords term = true /\
     toLowerCaseASCII (text span) = toLowerCaseASCII term).
Proof.
  intros Hlow Hascii Hne.
  destruct (existsb (startsWith (trim bulletText)) SKIP_LEADERSHIP_STARTS) eqn:Hlead.
  { unfold splitBulletWithBolds. destruct bulletText as [|c s]; [congruence|].
    rewrite Hlead. intros [<-|[]]. split; [exact Hne|discriminate]. }
  rewrite (splitBulletWithBolds_loop toLowerCase bulletText _ _ Hne Hlead).
  pose proof (boldLoop_content toLowerCase Hlow (sortedTerms toLowerCase matchedKeywords)
                (sortedTerms toLowerCase matchedKeywords)
                (default 2 maxSpans) (length bulletText / 2)) as Hloop.
  specialize (Hloop (fun t Ht =>
    let Hp := proj1 (proj1 (sortedTerms_In toLowerCase matchedKeywords t) Ht) in
    conj (PRIORITY_BOLD_nonempty t Hp) (conj (PRIORITY_BOLD_ascii t Hp) Ht))).
  specialize (Hloop [mkSegment bulletText false (Some 0)] 0).
  revert Hloop. generalize (boldLoop toLowerCase (sortedTerms toLowerCase matchedKeywords)
                              (default 2 maxSpans) (length bulletText / 2)
                              [mkSegment bulletText false (Some 0)] 0).
  intros segs Hloop Hin.
  assert (Forall (segmentFrom (sortedTerms toLowerCase matchedKeywords)) segs) as Hall.
  { apply Hloop. constructor; [|constructor].
    split; [exact Hascii|]. split; [exact Hne|discriminate]. }
  apply in_map_iff in Hin as (seg & <- & Hseg).
  rewrite Forall_forall in Hall.
  destruct (Hall seg (proj2 (list_elem_of_In _ _) Hseg)) as (_ & Htext & Hbold).
  split; [exact Htext|].
  rewrite emphasized_segmentRun. intros He.
  destruct (Hbold He) as (term & Hterm & Heq).
  destruct (proj1 (sortedTerms_In toLowerCase matchedKeywords term) Hterm) as [Hp Hc].
  exists term. split; [exact Hp|]. split; [exact Hc|exact Heq].
Qed.

Lemma emphasized_spans_are_priority_terms_witness :
  let span := segmentRun (mkSegment (lit "SQL") true (Some 34)) in
  (forall s, isASCII s = true -> toLowerCaseDotted s = toLowerCaseASCII s) /\
  isASCII etlBullet = true /\
  etlBullet <> [] /\
  In span (splitBulletWithBolds toLowerCaseDotted (Some etlBullet) (Some [lit "sql"]) None) /\
  text span <> [] /\
  (emphasized span = true ->
   exists term,
     In term PRIORITY_BOLD /\
     isCandidate toLowerCaseDotted (Some [lit "sql"]) term = true /\
     toLowerCaseASCII (text span) = toLowerCaseASCII term).
Proof.
  assert (etlBullet <> []) as Hne by discriminate.
  assert (isASCII etlBullet = true) as Hascii by (vm_compute; reflexivity).
  assert (In (segmentRun (mkSegment (lit "SQL") true (Some 34)))
            (splitBulletWithBolds toLowerCaseDotted (Some etlBullet) (Some [lit "sql"]) None))
    as Hin.
  { vm_compute. right. left. reflexivity. }
  split; [exact toLowerCaseDotted_ascii|]. split; [exact Hascii|].
  split; [exact Hne|]. split; [exact Hin|].
  exact (emphasized_spans_are_priority_terms toLowerCaseDotted etlBullet (Some [lit "sql"])
           None _ toLowerCaseDotted_ascii Hascii Hne Hin).
Defined.

(** ** When the annotator emphasizes *)

Section EmphasisLiveness.
Variable toLowerCase : jsstring -> jsstring.

Lemma boldLoop_monotone (terms : list jsstring) (maxBolds mid : nat) :
  forall (segs : list Segment) (bc : nat),
    boldSegments segs <= boldSegments (boldLoop toLowerCase terms maxBolds mid segs bc).
Proof.
  induction terms as [|term rest IH]; intros segs bc; cbn [boldLoop]; [lia|].
  destruct (maxBolds <=? bc); [lia|].
  destruct (pass_effect toLowerCase term mid segs 0 (mkLoopState [] false bc))
    as (out & Hnew & _ & _ & Heff).
  set (st := fold_left (segStep toLowerCase term mid) segs (mkLoopState [] false bc)) in *.
  cbn [newSegments app] in Hnew.
  destruct Heff as [-> Hd _ | _ Hd _ Hb]; cbn [didBold] in Hd; rewrite Hd.
  - apply IH.
  - rewrite Hnew. specialize (IH out (boldCount st)). lia.
Qed.

Lemma pass_single_bolds (bulletText term : jsstring) (mid idx bc : nat) :
  indexOf (toLowerCase bulletText) (toLowerCase term) = Some idx -> idx < mid ->
  didBold (fold_left (segStep toLowerCase term mid)
             [mkSegment bulletText false (Some 0)] (mkLoopState [] false bc)) = true.
Proof.
  intros Hidx Hlt. cbn [fold_left]. unfold segStep.
  cbn [seg_bold didBold orb seg_text startOffset]. rewrite Hidx.
  change (default 0 (Some 0) + idx) with idx.
  apply Nat.leb_gt in Hlt. rewrite Hlt. reflexivity.
Qed.

Lemma boldLoop_bolds (bulletText t : jsstring) (maxBolds mid idx : nat)
    (terms : list jsstring) :
  In t terms ->
  indexOf (toLowerCase bulletText) (toLowerCase t) = Some idx -> idx < mid ->
  1 <= maxBolds ->
  1 <= boldSegments (boldLoop toLowerCase terms maxBolds mid
                       [mkSegment bulletText false (Some 0)] 0).
Proof.
  intros Hin Hidx Hlt Hmax.
  induction terms as [|h rest IH]; [destruct Hin|].
  cbn [boldLoop]. apply Nat.leb_gt in Hmax as Hfull.
  replace (maxBolds <=? 0) with false.
  destruct (pass_effect toLowerCase h mid [mkSegment bulletText false (Some 0)] 0
              (mkLoopState [] false 0)) as (out & Hnew & _ & _ & Heff).
  set (st := fold_left (segStep toLowerCase h mid)
               [mkSegment bulletText false (Some 0)] (mkLoopState [] false 0)) in *.
  cbn [newSegments app] in Hnew.
  destruct Heff as [_ Hd Hc | _ Hd _ Hb]; cbn [didBold boldCount] in *.
  - rewrite Hd, Hc. apply IH.
    destruct Hin as [->|Hin]; [|exact Hin].
    pose proof (pass_single_bolds bulletText t mid idx 0 Hidx Hlt) as Hb.
    fold st in Hb. congruence.
  - rewrite Hd, Hnew.
    pose proof (boldLoop_monotone rest maxBolds mid out (boldCount st)) as Hmono.
    change (boldSegments [mkSegment bulletText false (Some 0)]) with 0 in Hb. lia.
Qed.

(** X2. Emphasis is applied whenever it can be: if a candidate term occurs
    in the bullet (up to case) with its first occurrence in the first half,
    the bullet does not begin with a lead-in phrase and the maximum is at
    least 1, then at least one span is emphasized. *)
Theorem emphasis_applied
    (bulletText term : jsstring) (matchedKeywords : option (list jsstring))
    (maxSpans : option nat) (idx : nat) :
  existsb (startsWith (trim bulletText)) SKIP_LEADERSHIP_STARTS = false ->
  In term PRIORITY_BOLD ->
  isCandidate toLowerCase matchedKeywords term = true ->
  indexOf (toLowerCase bulletText) (toLowerCase term) = Some idx ->
  idx < length bulletText / 2 ->
  1 <= default 2 maxSpans ->
  1 <= emphasizedCount (splitBulletWithBolds toLowerCase (Some bulletText) matchedKeywords maxSpans).
Proof.
  intros Hlead Hp Hc Hidx Hlt Hmax.
  assert (bulletText <> []) as Hne.
  { intros ->. cbn in Hlt. lia. }
  rewrite (splitBulletWithBolds_loop toLowerCase bulletText _ _ Hne Hlead).
  rewrite emphasizedCount_segmentRun.
  apply (boldLoop_bolds bulletText term _ _ idx); [|exact Hidx|exact Hlt|exact Hmax].
  exact (proj2 (sortedTerms_In toLowerCase matchedKeywords term) (conj Hp Hc)).
Qed.

(** X3. An empty keyword matches every term: when [matchedKeywords] holds
    the empty string (and lower-casing keeps it empty), the result is the
    one obtained with no keyword list at all. *)
Theorem empty_keyword_restricts_nothing
    (bulletText : option jsstring) (matchedKeywords : list jsstring)
    (maxSpans : option nat) :
  toLowerCase [] = [] -> In [] matchedKeywords ->
  splitBulletWithBolds toLowerCase bulletText (Some matchedKeywords) maxSpans
  = splitBulletWithBolds toLowerCase bulletText None maxSpans.
Proof.
  intros Hlow Hin.
  assert (forall t, isCandidate toLowerCase (Some matchedKeywords) t
                    = isCandidate toLowerCase None t) as Hsame.
  { intros t. unfold isCandidate. f_equal.
    replace (existsb _ matchedKeywords) with true; [apply orb_true_r|].
    symmetry. apply existsb_exists. exists []. split; [exact Hin|].
    rewrite Hlow, includes_empty. apply orb_true_r. }
  unfold splitBulletWithBolds.
  now rewrite (filter_ext _ _ Hsame PRIORITY_BOLD).
Qed.

Lemma trimStart_whitespace (ws s : jsstring) :
  forallb isWhiteSpace ws = true -> trimStart (ws ++ s) = trimStart s.
Proof.
  induction ws as [|c ws IH]; intros H; [reflexivity|].
  cbn [forallb] in H. apply andb_true_iff in H as [Hc Hws].
  cbn [app trimStart]. rewrite Hc. now apply IH.
Qed.

(** X4. White space before a lead-in phrase does not defeat the exemption:
    the bullet is returned as one plain span, with its white space kept. *)
Theorem soft_lead_after_whitespace
    (ws prefix rest : jsstring) (matchedKeywords : option (list jsstring))
    (maxSpans : option nat) :
  forallb isWhiteSpace ws = true ->
  In prefix SKIP_LEADERSHIP_STARTS ->
  splitBulletWithBolds toLowerCase (Some (ws ++ prefix ++ rest)) matchedKeywords maxSpans
  = [plainRun (ws ++ prefix ++ rest)].
Proof.
  intros Hws Hin.
  pose proof (SKIP_LEADERSHIP_STARTS_solid prefix Hin) as Hsolid.
  unfold splitBulletWithBolds.
  destruct (ws ++ prefix ++ rest) as [|c s] eqn:Htext.
  { apply app_eq_nil in Htext as [_ Htext]. apply app_eq_nil in Htext as [-> _].
    discriminate Hsolid. }
  rewrite <- Htext. clear c s Htext.
  assert (existsb (startsWith (trim (ws ++ prefix ++ rest))) SKIP_LEADERSHIP_STARTS = true)
    as ->; [|reflexivity].
  apply existsb_exists. exists prefix. split; [exact Hin|].
  unfold trim. rewrite (trimStart_whitespace ws _ Hws).
  destruct (trim_keeps_solid_prefix prefix rest Hsolid) as [rest' Htrim].
  unfold trim in Htrim. rewrite Htrim. apply startsWith_app.
Qed.

End EmphasisLiveness.

Lemma emphasis_applied_witness :
  existsb (startsWith (trim etlBullet)) SKIP_LEADERSHIP_STARTS = false /\
  In (lit "Python") PRIORITY_BOLD /\
  isCandidate toLowerCaseASCII (Some []) (lit "Python") = true /\
  indexOf (toLowerCaseASCII etlBullet) (toLowerCaseASCII (lit "Python")) = Some 23 /\
  23 < length etlBullet / 2 /\
  1 <= default 2 (@None nat) /\
  1 <= emphasizedCount (splitBulletWithBolds toLowerCaseASCII (Some etlBullet) (Some []) None).
Proof.
  assert (In (lit "Python") PRIORITY_BOLD) as Hin.
  { cbv [PRIORITY_BOLD map]. do 5 right. left. reflexivity. }
  assert (23 < length etlBullet / 2) as Hlt by (vm_compute; lia).
  assert (1 <= default 2 (@None nat)) as Hmax by (cbn; lia).
  split; [vm_compute; reflexivity|]. split; [exact Hin|].
  split; [vm_compute; reflexivity|]. split; [vm_compute; reflexivity|].
  split; [exact Hlt|]. split; [exact Hmax|].
  apply (emphasis_applied toLowerCaseASCII etlBullet (lit "Python") (Some []) None 23);
    [vm_compute; reflexivity|exact Hin|vm_compute; reflexivity|vm_compute; reflexivity
    |exact Hlt|exact Hmax].
Defined.

Lemma empty_keyword_restricts_nothing_witness :
  toLowerCaseASCII [] = [] /\
  In [] [lit "tableau"; []] /\
  splitBulletWithBolds toLowerCaseASCII (Some etlBullet) (Some [lit "tableau"; []]) None
  = splitBulletWithBolds toLowerCaseASCII (Some etlBullet) None None.
Proof.
  split; [reflexivity|]. split; [right; left; reflexivity|].
  apply (empty_keyword_restricts_nothing toLowerCaseASCII); [reflexivity|].
  right. left. reflexivity.
Defined.

Lemma soft_lead_after_whitespace_witness :
  forallb isWhiteSpace (lit "  ") = true /\
  In (lit "Trained") SKIP_LEADERSHIP_STARTS /\
  splitBulletWithBolds toLowerCaseASCII
    (Some (lit "  " ++ lit "Trained" ++ lit " analysts in SQL")) (Some [lit "SQL"]) None
  = [plainRun (lit "  " ++ lit "Trained" ++ lit " analysts in SQL")].
Proof.
  assert (In (lit "Trained") SKIP_LEADERSHIP_STARTS) as Hin.
  { cbv [SKIP_LEADERSHIP_STARTS map]. do 2 right. left. reflexivity. }
  split; [reflexivity|]. split; [exact Hin|].
  apply (soft_lead_after_whitespace toLowerCaseASCII); [reflexivity|exact Hin].
Defined.

(** ** More on [formatDate] *)

Lemma months_plain (k : nat) :
  k < 12 -> nth k months [] <> [] /\ noSep DASH (nth k months []) = true.
Proof.
  intros Hk. do 12 (destruct k as [|k]; [split; [discriminate|reflexivity]|]). lia.
Qed.

Lemma noSep_app (sep : N) (a b : jsstring) :
  noSep sep (a ++ b) = noSep sep a && noSep sep b.
Proof. apply forallb_app. Qed.

(** The three shapes of a result of [formatDate]. *)
Lemma formatDate_shapes (dateStr : option jsstring) :
  formatDate dateStr = lit "Present" \/
  (exists (k : nat) (year : jsstring),
      k < 12 /\ noSep DASH year = true /\
      formatDate dateStr = nth k months [] ++ lit " " ++ year) \/
  (exists s, dateStr = Some s /\ s <> [] /\ formatDate dateStr = s).
Proof.
  destruct dateStr as [[|c s]|]; [now left| |now left].
  set (d := c :: s).
  destruct (readsAsDateb d) eqn:Hreads.
  - right. left.
    apply readsAsDate_decide in Hreads
      as (year & month & rest & m & Hd & Hy & Hm & Hrest & Hparse & Hrange).
    exists (Z.to_nat (m - 1)), year. split; [lia|]. split; [exact Hy|].
    rewrite Hd. now apply (formatDate_accepts year month rest m).
  - right. right. exists d. split; [reflexivity|]. split; [discriminate|].
    apply formatDate_passthrough; [discriminate|].
    rewrite readsAsDate_decide. now rewrite Hreads.
Qed.

(** X5. [formatDate] never returns the empty string. *)
Theorem formatDate_not_empty (dateStr : option jsstring) : formatDate dateStr <> [].
Proof.
  destruct (formatDate_shapes dateStr) as [->|[(k & year & Hk & _ & ->)|(s & _ & Hs & ->)]].
  - discriminate.
  - destruct (months_plain k Hk) as [Hne _].
    destruct (nth k months []); [congruence|discriminate].
  - exact Hs.
Qed.

(** X6. [formatDate] is idempotent: a date that was already formatted
    ("Mar 2022", "Present", or a string passed through) is left unchanged when
    formatted again. *)
Theorem formatDate_idempotent (dateStr : option jsstring) :
  formatDate (Some (formatDate dateStr)) = formatDate dateStr.
Proof.
  destruct (formatDate_shapes dateStr) as [->|[(k & year & Hk & Hy & ->)|(s & -> & Hs & Heq)]].
  - reflexivity.
  - destruct (months_plain k Hk) as [Hne Hplain].
    apply (formatDate_one_component _ (nth k months [] ++ lit " " ++ year)).
    + destruct (nth k months []); [congruence|discriminate].
    + apply split_single. rewrite !noSep_app, Hplain, Hy. reflexivity.
  - rewrite Heq. exact Heq.
Qed.

(** ** What the section builders show *)

Section BuilderTexts.
Variable toLowerCase : jsstring -> jsstring.

Lemma splitBulletWithBolds_texts (bulletText : jsstring)
    (matchedKeywords : option (list jsstring)) (maxSpans : option nat) :
  spanTexts (splitBulletWithBolds toLowerCase (Some bulletText) matchedKeywords maxSpans)
  = bulletText.
Proof.
  destruct bulletText as [|c s]; [reflexivity|].
  assert (c :: s <> []) as Hne by discriminate.
  revert Hne. generalize (c :: s). clear c s. intros bt Hne.
  destruct (existsb (startsWith (trim bt)) SKIP_LEADERSHIP_STARTS) eqn:Hlead.
  - unfold splitBulletWithBolds. destruct bt as [|c s]; [congruence|].
    rewrite Hlead. apply (plain_span_invariant (c :: s) 0 0).
  - rewrite (splitBulletWithBolds_loop toLowerCase bt _ _ Hne Hlead).
    rewrite spanTexts_segmentRun.
    destruct (boldLoop_invariant toLowerCase (sortedTerms toLowerCase matchedKeywords)
                (default 2 maxSpans) (length bt / 2) [mkSegment bt false (Some 0)] 0)
      as (Htxt & _ & _).
    + reflexivity.
    + apply Nat.le_0_l.
    + cbn [offsetsOk seg_bold startOffset]. split; [reflexivity|exact I].
    + rewrite Htxt. unfold segTexts. cbn [map concat seg_text]. apply app_nil_r.
Qed.

Lemma paragraphText_runs (spans : list TextRun) (a : option Alignment)
    (h : option HeadingLevel) (sp : Spacing) (bb : bool) (bu : option nat) :
  paragraphText (mkParagraph a h sp bb bu (map Run spans)) = spanTexts spans.
Proof.
  unfold paragraphText, spanTexts. cbn [children]. f_equal.
  induction spans as [|r spans IH]; [reflexivity|]. cbn [map flat_map childTexts app].
  now rewrite IH.
Qed.

Lemma buildBullets_shown (bullets : option (list Bullet)) :
  map paragraphText (buildBullets toLowerCase bullets) = shownBullets bullets.
Proof.
  unfold buildBullets, shownBullets.
  induction (default [] bullets) as [|b bs IH]; [reflexivity|].
  cbn [flat_map map List.filter]. rewrite map_app, IH.
  destruct (truthy (Some (bulletText b))) eqn:Hb.
  - apply truthy_Some_true in Hb.
    destruct (bulletText b) as [|c t] eqn:Htext; [congruence|].
    cbn [length Nat.eqb negb map app]. f_equal.
    rewrite paragraphText_runs.
    apply splitBulletWithBolds_texts.
  - apply truthy_Some_false in Hb. rewrite Hb. reflexivity.
Qed.

(** X7. Every bullet with a non-empty text is rendered as one paragraph
    whose runs, put together, show exactly that text; bullets with a missing
    or empty text are skipped; the order is kept; and every paragraph emitted
    is a level-0 bullet paragraph. *)
Theorem buildBullets_texts (bullets : option (list Bullet)) :
  map paragraphText (buildBullets toLowerCase bullets) = shownBullets bullets /\
  Forall (fun p => bullet p = Some 0 /\ heading p = None)
    (buildBullets toLowerCase bullets).
Proof.
  split; [exact (buildBullets_shown bullets)|].
  unfold buildBullets.
  induction (default [] bullets) as [|b bs IH]; [constructor|].
  cbn [flat_map]. apply Forall_app. split; [|exact IH].
  destruct (truthy (Some (bulletText b))); [|constructor].
  constructor; [|constructor]. split; reflexivity.
Qed.

Lemma experienceEntry_texts (job : Job) :
  map paragraphText
    ([mkParagraph None None (mkSpacing (Some 120) (Some 40)) false None
        [Run (boldRun (j_company job ++ lit ", ") FONT_SIZE_BODY);
         Run (boldRun (j_title job) FONT_SIZE_BODY);
         Run (textRun (lit " | " ++ dateRange job) FONT_SIZE_BODY)]]
     ++ (if truthy (j_location job)
         then [mkParagraph None None (mkSpacing None (Some 40)) false None
                 [Run (italicRun (default [] (j_location job)) FONT_SIZE_BODY)]]
         else [])
     ++ buildBullets toLowerCase (j_bullets job))
  = experienceTexts job.
Proof.
  unfold experienceTexts. rewrite !map_app, buildBullets_shown. f_equal; [|f_equal].
  - unfold paragraphText.
    cbn [map children flat_map childTexts app concat text boldRun textRun].
    now rewrite app_nil_r, <- !app_assoc.
  - destruct (j_location job) as [[|c s]|]; try reflexivity.
    unfold paragraphText. cbn. now rewrite app_nil_r.
Qed.

(** X8. The experience section always starts with its heading, even with
    no job; each job then shows one line "company, title | start - end",
    its location when present, and its non-empty bullets, in order. *)
Theorem buildExperience_texts (jobs : list Job) :
  map paragraphText (buildExperience toLowerCase jobs)
  = lit "PROFESSIONAL EXPERIENCE" :: flat_map experienceTexts jobs.
Proof.
  unfold buildExperience. cbn [map].
  change (paragraphText (sectionHeading (lit "Professional Experience")))
    with (lit "PROFESSIONAL EXPERIENCE").
  f_equal.
  induction jobs as [|job jobs IH]; [reflexivity|].
  cbn [flat_map]. rewrite map_app, IH. f_equal.
  apply experienceEntry_texts.
Qed.

Lemma projectEntry_texts (proj : Project) :
  map paragraphText (projectTitle proj :: buildBullets toLowerCase (pr_bullets proj))
  = projectTexts proj.
Proof.
  unfold projectTexts. cbn [map app]. rewrite buildBullets_shown. f_equal.
  unfold projectTitle, hasRepoLink, paragraphText. cbn [children].
  destruct (truthy (pr_github_url proj) && _).
  - cbn [app flat_map childTexts map concat text boldRun textRun linkRun].
    now rewrite app_nil_r, <- !app_assoc.
  - cbn [app flat_map childTexts map concat text boldRun]. reflexivity.
Qed.

(** X9. The projects section is empty when there is no project; otherwise
    it shows its heading and, for each selected project (all in CV mode, the
    first three otherwise), the name, followed by " - GitHub" exactly when
    the repository URL starts with "http", and the non-empty bullets. *)
Theorem buildProjects_texts (projects : list Project) (isCv : bool) :
  map paragraphText (buildProjects toLowerCase projects isCv)
  = match projects with
    | [] => []
    | _ :: _ =>
        lit "PROJECTS"
        :: flat_map projectTexts (if isCv then projects else take 3 projects)
    end.
Proof.
  unfold buildProjects, slice_list.
  destruct projects as [|proj projects]; [reflexivity|].
  cbn [length Nat.eqb map].
  change (paragraphText (sectionHeading (lit "Projects"))) with (lit "PROJECTS").
  f_equal.
  change (3 - 0) with 3. change (drop 0 (proj :: projects)) with (proj :: projects).
  generalize (if isCv then proj :: projects else take 3 (proj :: projects)).
  intros top. induction top as [|p top IH]; [reflexivity|].
  cbn [flat_map]. rewrite map_app, IH. f_equal. apply projectEntry_texts.
Qed.

End BuilderTexts.

Lemma withScheme_http (x : jsstring) : startsWith (withScheme x) (lit "http") = true.
Proof.
  unfold withScheme. destruct (startsWith x (lit "http")) eqn:H; [exact H|].
  apply (startsWith_app (lit "http") (lit "s://" ++ x)).
Qed.

Lemma linkTargets_app (a b : list Paragraph) :
  linkTargets (a ++ b) = linkTargets a ++ linkTargets b.
Proof. unfold linkTargets. apply flat_map_app. Qed.

Lemma linkTargets_buildHeader (personal : Personal) :
  linkTargets (buildHeader personal)
  = map withScheme
      (present [p_linkedin personal; p_github personal; p_portfolio personal]).
Proof.
  destruct personal as [name email phone linkedin github portfolio location].
  unfold buildHeader. cbn [p_name p_email p_phone p_linkedin p_github p_portfolio p_location].
  destruct (truthy location), (truthy phone), (truthy email);
    destruct linkedin as [[|? ?]|], github as [[|? ?]|], portfolio as [[|? ?]|];
    reflexivity.
Qed.

Section LinkProperties.
Variable toLowerCase : jsstring -> jsstring.

Lemma linkTargets_bullets (bullets : option (list Bullet)) :
  linkTargets (buildBullets toLowerCase bullets) = [].
Proof.
  unfold buildBullets. induction (default [] bullets) as [|b bs IH]; [reflexivity|].
  cbn [flat_map]. rewrite linkTargets_app, IH, app_nil_r.
  destruct (truthy (Some (bulletText b))); [|reflexivity].
  unfold linkTargets. cbn [flat_map children]. rewrite app_nil_r.
  induction (splitBulletWithBolds toLowerCase (Some (bulletText b))
               (Some (bulletKeywords b)) None) as [|r rs IHr]; [reflexivity|exact IHr].
Qed.

Lemma linkTargets_projects (projects : list Project) (link : jsstring) :
  In link (linkTargets
             (flat_map (fun proj => projectTitle proj
                                     :: buildBullets toLowerCase (pr_bullets proj))
                projects)) ->
  exists proj, In proj projects /\ hasRepoLink proj = true /\ pr_github_url proj = Some link.
Proof.
  induction projects as [|proj projects IH]; [intros []|].
  cbn [flat_map]. rewrite linkTargets_app.
  change (projectTitle proj :: buildBullets toLowerCase (pr_bullets proj))
    with ([projectTitle proj] ++ buildBullets toLowerCase (pr_bullets proj)).
  rewrite linkTargets_app, linkTargets_bullets, app_nil_r.
  intros Hin. apply in_app_or in Hin as [Hin|Hin].
  - exists proj. split; [now left|].
    unfold linkTargets, projectTitle in Hin. cbn [flat_map children] in Hin.
    unfold hasRepoLink.
    destruct (truthy (pr_github_url proj)
              && startsWith (default [] (pr_github_url proj)) (lit "http")) eqn:Hlink;
      [|destruct Hin].
    split; [reflexivity|].
    destruct Hin as [<-|[]].
    apply andb_true_iff in Hlink as [Ht _].
    destruct (pr_github_url proj) as [[|c s]|]; try discriminate. reflexivity.
  - destruct (IH Hin) as (p & Hp & Hl & Hu). exists p. split; [now right|now split].
Qed.

(** X10. Every hyperlink the header and the projects section emit has a
    target that starts with "http": the header prefixes "https://" to a
    profile link without it, and a project whose repository URL does not
    start with "http" gets no link. *)
Theorem link_targets_have_scheme (personal : Personal) (projects : list Project)
    (isCv : bool) (link : jsstring) :
  In link (linkTargets (buildHeader personal)
           ++ linkTargets (buildProjects toLowerCase projects isCv)) ->
  startsWith link (lit "http") = true.
Proof.
  intros Hin. apply in_app_or in Hin as [Hin|Hin].
  - rewrite linkTargets_buildHeader in Hin.
    apply in_map_iff in Hin as (x & <- & _). apply withScheme_http.
  - unfold buildProjects in Hin.
    destruct (length projects =? 0); [destruct Hin|].
    change (sectionHeading (lit "Projects") :: ?l) with ([sectionHeading (lit "Projects")] ++ l) in Hin.
    revert Hin.
    generalize (if isCv then projects else slice_list projects 0 3). intros top Hin.
    destruct (linkTargets_projects top link Hin) as (proj & _ & Hl & Hu).
    unfold hasRepoLink in Hl. rewrite Hu in Hl.
    now apply andb_true_iff in Hl as [_ Hl].
Qed.

End LinkProperties.

(** X11. The certifications section is empty when there is no
    certification; otherwise it shows its heading and one line per
    certification: the name, then the issuer and the formatted issue date,
    each only when present, separated by " - " (em dash). *)
Theorem buildCertifications_texts (certifications : list Certification) :
  map paragraphText (buildCertifications certifications)
  = match certifications with
    | [] => []
    | _ :: _ => lit "CERTIFICATIONS" :: map certificationText certifications
    end.
Proof.
  unfold buildCertifications.
  destruct certifications as [|cert certs]; [reflexivity|].
  cbn [length Nat.eqb]. generalize (cert :: certs). clear cert certs. intros certs.
  cbn [map].
  change (paragraphText (sectionHeading (lit "Certifications"))) with (lit "CERTIFICATIONS").
  f_equal. rewrite map_map. apply map_ext. intros [name issuer issued].
  unfold certificationText, paragraphText.
  cbn [c_name c_issuer c_issued children flat_map childTexts text textRun app concat].
  rewrite app_nil_r.
  destruct issuer as [[|? ?]|], issued as [[|? ?]|]; reflexivity.
Qed.

Lemma link_targets_have_scheme_witness :
  let ada := mkPersonal (Some (lit "Ada")) None None (Some (lit "linkedin.com/in/ada"))
               None None None in
  In (lit "https://linkedin.com/in/ada")
     (linkTargets (buildHeader ada)
      ++ linkTargets (buildProjects toLowerCaseASCII demoProjects false)) /\
  startsWith (lit "https://linkedin.com/in/ada") (lit "http") = true.
Proof.
  assert (In (lit "https://linkedin.com/in/ada")
            (linkTargets (buildHeader (mkPersonal (Some (lit "Ada")) None None
                                         (Some (lit "linkedin.com/in/ada")) None None None))
             ++ linkTargets (buildProjects toLowerCaseASCII demoProjects false))) as Hin.
  { vm_compute. left. reflexivity. }
  split; [exact Hin|].
  exact (link_targets_have_scheme toLowerCaseASCII _ demoProjects false _ Hin).
Defined.

(** ** More on the skills section *)

Lemma setProperty_names (o : JSObject) (c n : jsstring) (names : list jsstring) :
  ownProperty o c = Some names ->
  Permutation (flat_map snd (setProperty o c (names ++ [n]))) (flat_map snd o ++ [n]).
Proof.
  induction o as [|[k v] o IH]; intros Hown; [discriminate|].
  cbn [ownProperty setProperty] in *.
  destruct (bool_decide (k = c)).
  - injection Hown as ->. cbn [flat_map snd].
    rewrite <- !app_assoc. apply Permutation_app_head. apply Permutation_app_comm.
  - cbn [flat_map snd]. rewrite <- app_assoc. apply Permutation_app_head. now apply IH.
Qed.

Lemma addName_names (o : JSObject) (c n : jsstring) :
  Permutation (flat_map snd (addName o c n)) (flat_map snd o ++ [n]).
Proof.
  unfold addName. destruct (ownProperty o c) as [names|] eqn:Hown.
  - now apply setProperty_names.
  - rewrite flat_map_app. cbn [flat_map snd app]. reflexivity.
Qed.

Lemma firstSeenGroups_names (skills : list Skill) :
  Permutation (flat_map snd (firstSeenGroups skills)) (map s_name skills).
Proof.
  induction skills as [|skill skills IH] using rev_ind; [reflexivity|].
  rewrite firstSeenGroups_snoc, addName_names, map_app, IH. reflexivity.
Qed.

Lemma filter_partition (p : jsstring * list jsstring -> bool) (o : JSObject) :
  Permutation (List.filter p o ++ List.filter (fun kv => negb (p kv)) o) o.
Proof.
  induction o as [|kv o IH]; [reflexivity|].
  cbn [List.filter]. destruct (p kv); cbn [negb app].
  - now constructor.
  - rewrite <- Permutation_middle. now constructor.
Qed.

Lemma Object_entries_perm (o : JSObject) : Permutation (Object_entries o) o.
Proof.
  unfold Object_entries. rewrite sort_perm. apply (filter_partition (fun kv => isArrayIndex kv.1)).
Qed.

(** X12. No skill is lost or duplicated by the grouping: when no category
    names a property inherited from [Object.prototype], the names listed on
    the lines of the skills section are, all together, exactly the names of
    the input skills (each as often as it occurs in the input). *)
Theorem buildSkills_keeps_every_skill (skills : list Skill) :
  skills <> [] ->
  ordinaryCategories skills = true ->
  exists entries,
    buildSkills skills = Ok (skillsSection entries) /\
    Permutation (flat_map snd entries) (map s_name skills).
Proof.
  intros Hne Hord. exists (Object_entries (firstSeenGroups skills)). split.
  - unfold buildSkills. rewrite (groupSkills_firstSeen skills Hord).
    destruct skills; [congruence|reflexivity].
  - rewrite <- firstSeenGroups_names.
    apply Permutation_flat_map. apply Object_entries_perm.
Qed.

Lemma buildSkills_keeps_every_skill_witness :
  demoSkills <> [] /\ ordinaryCategories demoSkills = true /\
  exists entries,
    buildSkills demoSkills = Ok (skillsSection entries) /\
    Permutation (flat_map snd entries) (map s_name demoSkills).
Proof.
  assert (demoSkills <> []) as Hne by discriminate.
  split; [exact Hne|]. split; [reflexivity|].
  exact (buildSkills_keeps_every_skill demoSkills Hne eq_refl).
Defined.

Lemma groupSkills_app (a b : list Skill) :
  forall o : JSObject,
    groupSkills o (a ++ b) =
    match groupSkills o a with
    | Ok o' => groupSkills o' b
    | Throw e => Throw e
    end.
Proof.
  induction a as [|sk a IH]; intros o; cbn [app groupSkills]; [reflexivity|].
  destruct (groupSkill o sk); [apply IH|reflexivity].
Qed.

Lemma first_inherited (skills : list Skill) :
  ordinaryCategories skills = false ->
  exists pre bad post,
    skills = pre ++ bad :: post /\
    ordinaryCategories pre = true /\
    skillCategory bad ∈ Object_prototype_keys.
Proof.
  unfold ordinaryCategories.
  induction skills as [|sk skills IH]; [discriminate|].
  cbn [forallb]. intros H.
  destruct (bool_decide (skillCategory sk ∈ Object_prototype_keys)) eqn:Hsk.
  - exists [], sk, skills. split; [reflexivity|]. split; [reflexivity|].
    now apply bool_decide_eq_true in Hsk.
  - cbn [negb andb] in H. destruct (IH H) as (pre & bad & post & -> & Hpre & Hbad).
    exists (sk :: pre), bad, post. split; [reflexivity|]. split; [|exact Hbad].
    cbn [forallb]. now rewrite Hsk, Hpre.
Qed.

(** X13. [buildSkills] throws exactly when some skill's category is the
    name of a property inherited from [Object.prototype] ("constructor",
    "toString", "__proto__", ...): the error is the TypeError raised by the
    call of [push], and the whole section is lost. *)
Theorem buildSkills_throws_iff (skills : list Skill) :
  buildSkills skills = Throw (TypeError "byCategory[cat].push is not a function")
  <-> ordinaryCategories skills = false.
Proof.
  split.
  - intros Hthrow. destruct (ordinaryCategories skills) eqn:Hord; [|reflexivity].
    unfold buildSkills in Hthrow. rewrite (groupSkills_firstSeen skills Hord) in Hthrow.
    destruct (length skills =? 0); discriminate.
  - intros Hord.
    destruct (first_inherited skills Hord) as (pre & bad & post & -> & Hpre & Hbad).
    unfold buildSkills.
    replace (length (pre ++ bad :: post) =? 0) with false
      by (symmetry; apply Nat.eqb_neq; rewrite length_app; cbn; lia).
    rewrite groupSkills_app, (groupSkills_firstSeen pre Hpre).
    cbn [groupSkills]. rewrite groupSkill_inherited; [reflexivity| |exact Hbad].
    unfold firstSeenGroups. apply ownProperty_groups_absent.
    rewrite firstSeen_In, in_map_iff. intros (sk & Hcat & Hin).
    unfold ordinaryCategories in Hpre. rewrite forallb_forall in Hpre.
    specialize (Hpre sk Hin). apply negb_true_iff, bool_decide_eq_false in Hpre.
    apply Hpre. now rewrite Hcat.
Qed.

(** ** Successful generation *)

Section SuccessProperties.
Variable toLowerCase : jsstring -> jsstring.
Variable toBuffer : Document -> Result (list N).
Variable io : WriteOutcome.

Lemma write_tail_success (doc : Document) (outputPath line : jsstring)
    (w w' : World) (u : unit) :
  (buffer <- liftResult (toBuffer doc) ;;
   _ <- writeFileSync io outputPath buffer ;;
   console_log line) w = (Ok u, w') ->
  io = WriteCompletes /\
  (exists buffer, toBuffer doc = Ok buffer /\
                  files w' = <[outputPath := buffer]> (files w)) /\
  console w' = console w ++ [line].
Proof.
  unfold bind, liftResult, writeFileSync, console_log.
  destruct (toBuffer doc) as [buffer|e0]; [|discriminate].
  destruct io as [|e1|n e1]; intros H; [|discriminate H|discriminate H].
  injection H as _ <-. split; [reflexivity|]. split; [|reflexivity].
  now exists buffer.
Qed.

Lemma build_then_write_success (skills : Result (list Paragraph))
    (k : list Paragraph -> IO unit) (w w' : World) (u : unit) :
  (ps <- liftResult skills ;; k ps) w = (Ok u, w') ->
  exists ps, skills = Ok ps /\ k ps w = (Ok u, w').
Proof.
  unfold bind at 1. unfold liftResult.
  destruct skills as [ps|e0]; [|discriminate]. intros H. now exists ps.
Qed.

Lemma run_success (docType : jsstring) (data : Payload) (outputFile : jsstring)
    (w w' : World) (u : unit) :
  run toLowerCase toBuffer io docType data outputFile w = (Ok u, w') ->
  exists doc,
    io = WriteCompletes /\
    (exists buffer, toBuffer doc = Ok buffer /\
                    files w' = <[outputFile := buffer]> (files w)) /\
    console w' = console w ++ [successLine docType ++ outputFile].
Proof.
  intros Hrun. unfold run, successLine in *.
  destruct (bool_decide (docType = lit "coverletter"));
    [|destruct (bool_decide (docType = lit "cv"))].
  - unfold generateCoverLetter in Hrun. eexists. apply (write_tail_success _ _ _ _ _ _ Hrun).
  - unfold generateCV in Hrun.
    apply build_then_write_success in Hrun as (ps & _ & Hrun).
    eexists. apply (write_tail_success _ _ _ _ _ _ Hrun).
  - unfold generateResume in Hrun.
    apply build_then_write_success in Hrun as (ps & _ & Hrun).
    eexists. apply (write_tail_success _ _ _ _ _ _ Hrun).
Qed.

(** X14. When a generator succeeds, the write completed, the output path
    holds exactly the bytes the packer returned for the document, every other
    path of the file system is as before, one line naming the document type
    and the output path is logged, and the process ends with status 0. *)
Theorem generation_success (docType : jsstring) (data : Payload) (outputFile : jsstring)
    (w w' : World) (u : unit) :
  run toLowerCase toBuffer io docType data outputFile w = (Ok u, w') ->
  io = WriteCompletes /\
  (exists doc buffer,
      toBuffer doc = Ok buffer /\
      files w' = <[outputFile := buffer]> (files w) /\
      files w' !! outputFile = Some buffer /\
      (forall other, other <> outputFile -> files w' !! other = files w !! other)) /\
  console w' = console w ++ [successLine docType ++ outputFile] /\
  main toLowerCase toBuffer io docType data outputFile w = mkExit 0 None w'.
Proof.
  intros Hrun.
  assert (main toLowerCase toBuffer io docType data outputFile w = mkExit 0 None w') as Hmain.
  { unfold main. now rewrite Hrun. }
  destruct (run_success docType data outputFile w w' u Hrun)
    as (doc & Hio & (buffer & Hpack & Hfiles) & Hlog).
  split; [exact Hio|]. split; [|split; [exact Hlog|exact Hmain]].
  exists doc, buffer. split; [exact Hpack|]. split; [exact Hfiles|].
  rewrite Hfiles. split.
  - apply lookup_insert_eq.
  - intros other Hother. apply lookup_insert_ne. congruence.
Qed.

(** X18. Whatever happens, a generator touches no path but the output
    path: every other file is the same after the run as before, on success
    and on failure alike. *)
Theorem run_touches_only_output (docType : jsstring) (data : Payload)
    (outputFile other : jsstring) (w : World) :
  other <> outputFile ->
  files (run toLowerCase toBuffer io docType data outputFile w).2 !! other
  = files w !! other.
Proof.
  intros Hother.
  destruct (run toLowerCase toBuffer io docType data outputFile w) as [[u|e] w'] eqn:Hrun;
    cbn [snd].
  - destruct (run_success docType data outputFile w w' u Hrun)
      as (doc & _ & (buffer & _ & ->) & _).
    apply lookup_insert_ne. congruence.
  - destruct (run_failure toLowerCase toBuffer io docType data outputFile w w' e Hrun)
      as [_ [-> | n doc buffer _ _ ->]]; [reflexivity|].
    apply lookup_insert_ne. congruence.
Qed.

(** X15. A CV without summary and with at most three projects is the same
    document as the resume of the same payload: [generateCV] and
    [generateResume] hand the same document to the packer (only the logged
    line differs). *)
Theorem cv_equals_resume (data : Payload) :
  truthy (d_summary data) = false ->
  length (default [] (d_projects data)) <= 3 ->
  cvDocument toLowerCase data = resumeDocument toLowerCase data /\
  (forall (pack : Document -> Result (list N)) (outcome : WriteOutcome)
          (outputPath : jsstring) (w : World),
      generateCV toLowerCase pack outcome data outputPath w
      = writeDocument pack outcome (cvDocument toLowerCase data)
          (lit "CV generated: ") outputPath w) /\
  (forall (pack : Document -> Result (list N)) (outcome : WriteOutcome)
          (outputPath : jsstring) (w : World),
      generateResume toLowerCase pack outcome data outputPath w
      = writeDocument pack outcome (resumeDocument toLowerCase data)
          (lit "Resume generated: ") outputPath w).
Proof.
  intros Hsum Hlen. split; [|split].
  - unfold cvDocument, resumeDocument. rewrite Hsum.
    assert (buildProjects toLowerCase (default [] (d_projects data)) true
            = buildProjects toLowerCase (default [] (d_projects data)) false) as ->;
      [|reflexivity].
    unfold buildProjects, slice_list.
    change (3 - 0) with 3. change (drop 0 ?l) with l.
    now rewrite (take_ge _ 3) by exact Hlen.
  - intros pack outcome outputPath w. apply generateCV_document.
  - intros pack outcome outputPath w. apply generateResume_document.
Qed.

End SuccessProperties.

Lemma generation_success_witness :
  let w' := mkWorld (<[outputDocx := zipSignature]> ∅)
              [lit "CV generated: " ++ outputDocx] in
  run toLowerCaseASCII toyPacker WriteCompletes (lit "cv") emptyPayload outputDocx freshWorld
  = (Ok tt, w') /\
  files w' !! outputDocx = Some zipSignature /\
  console w' = console freshWorld ++ [successLine (lit "cv") ++ outputDocx] /\
  main toLowerCaseASCII toyPacker WriteCompletes (lit "cv") emptyPayload outputDocx freshWorld
  = mkExit 0 None w'.
Proof.
  cbv zeta.
  assert (run toLowerCaseASCII toyPacker WriteCompletes (lit "cv") emptyPayload outputDocx
            freshWorld
          = (Ok tt, mkWorld (<[outputDocx := zipSignature]> ∅)
                      [lit "CV generated: " ++ outputDocx])) as Hrun by reflexivity.
  destruct (generation_success toLowerCaseASCII toyPacker WriteCompletes (lit "cv")
              emptyPayload outputDocx freshWorld _ tt Hrun)
    as (_ & _ & Hlog & Hmain).
  split; [exact Hrun|]. split; [apply lookup_insert_eq|].
  split; [exact Hlog|exact Hmain].
Defined.

Lemma cv_equals_resume_witness :
  truthy (d_summary demoPayload) = false /\
  length (default [] (d_projects demoPayload)) <= 3 /\
  cvDocument toLowerCaseASCII demoPayload = resumeDocument toLowerCaseASCII demoPayload /\
  (exists doc,
      resumeDocument toLowerCaseASCII demoPayload = Ok doc /\
      map paragraphText (doc_children doc)
      = [lit "Ada"; lit "PROFESSIONAL EXPERIENCE"; lit "PROJECTS";
         lit "Ledger " ++ [EM_DASH] ++ lit " GitHub";
         lit "Built ETL pipelines in Python for reporting teams";
         lit "Atlas"; lit "Modelled sales in SQL and Power BI dashboards"; lit "Orbit";
         lit "TECHNICAL SKILLS"; lit "2024: Forecasting"; lit "Languages: Python, SQL"]) /\
  generateCV toLowerCaseASCII toyPacker WriteCompletes demoPayload outputDocx freshWorld
  = writeDocument toyPacker WriteCompletes (cvDocument toLowerCaseASCII demoPayload)
      (lit "CV generated: ") outputDocx freshWorld /\
  generateResume toLowerCaseASCII toyPacker WriteCompletes demoPayload outputDocx freshWorld
  = writeDocument toyPacker WriteCompletes (resumeDocument toLowerCaseASCII demoPayload)
      (lit "Resume generated: ") outputDocx freshWorld.
Proof.
  assert (length (default [] (d_projects demoPayload)) <= 3) as Hlen by (cbn; lia).
  destruct (cv_equals_resume toLowerCaseASCII demoPayload eq_refl Hlen)
    as (Hsame & Hcv & Hresume).
  split; [reflexivity|]. split; [exact Hlen|]. split; [exact Hsame|].
  split; [eexists; split; vm_compute; reflexivity|].
  split; [apply Hcv|apply Hresume].
Defined.

(** ** The command line *)

Lemma arrayIndexOf_absent (x : jsstring) (args : list jsstring) :
  ~ In x args -> arrayIndexOf args x = None.
Proof.
  induction args as [|a args IH]; intros Hnot; [reflexivity|].
  cbn [arrayIndexOf]. rewrite bool_decide_eq_false_2.
  - rewrite IH; [reflexivity|]. intros H. apply Hnot. now right.
  - intros ->. apply Hnot. now left.
Qed.

Lemma arrayIndexOf_first (x : jsstring) (pre rest : list jsstring) :
  ~ In x pre -> arrayIndexOf (pre ++ x :: rest) x = Some (length pre).
Proof.
  induction pre as [|a pre IH]; intros Hnot; cbn [app arrayIndexOf length].
  - now rewrite bool_decide_eq_true_2.
  - rewrite bool_decide_eq_false_2 by (intros ->; apply Hnot; now left).
    rewrite IH; [reflexivity|]. intros H. apply Hnot. now right.
Qed.

Lemma lookup_after_flag (pre rest : list jsstring) (flag : jsstring) (k : nat) :
  (pre ++ flag :: rest) !! (length pre + S k) = rest !! k.
Proof.
  rewrite lookup_app_r by lia.
  replace (length pre + S k - length pre) with (S k) by lia. reflexivity.
Qed.

Lemma truthy_present (o : option jsstring) :
  truthy o = true -> exists s, o = Some s /\ s <> [].
Proof. destruct o as [[|c s]|]; try discriminate. intros _. now exists (c :: s). Qed.

(** X16. The command line: without [--type] the document type is "resume"
    and the two files are the first two arguments; with [--type] the type
    and the two files are the three arguments that follow its first
    occurrence, whatever stands before it; when fewer than three arguments
    follow the flag the program stops with the usage message; and whenever
    the arguments are accepted the type is defined and both file names are
    non-empty. *)
Theorem parseArgs_cases :
  (forall (i o : jsstring) (rest : list jsstring),
      ~ In (lit "--type") (i :: o :: rest) -> i <> [] -> o <> [] ->
      parseArgs (i :: o :: rest) = Some (mkCommandLine (Some (lit "resume")) i o)) /\
  (forall (pre rest : list jsstring) (t i o : jsstring),
      ~ In (lit "--type") pre -> i <> [] -> o <> [] ->
      parseArgs (pre ++ lit "--type" :: t :: i :: o :: rest)
      = Some (mkCommandLine (Some t) i o)) /\
  (forall (pre after : list jsstring),
      ~ In (lit "--type") pre -> length after < 3 ->
      parseArgs (pre ++ lit "--type" :: after) = None) /\
  (forall (args : list jsstring) (cl : CommandLine),
      parseArgs args = Some cl ->
      (exists t, cl_docType cl = Some t) /\ cl_inputFile cl <> [] /\ cl_outputFile cl <> []).
Proof.
  split; [|split; [|split]].
  - intros i o rest Hnot Hi Ho. unfold parseArgs.
    rewrite (arrayIndexOf_absent _ _ Hnot). cbn [lookup list_lookup].
    destruct i; [congruence|]. destruct o; [congruence|]. reflexivity.
  - intros pre rest t i o Hnot Hi Ho. unfold parseArgs.
    rewrite (arrayIndexOf_first _ pre _ Hnot).
    replace (length pre + 1) with (length pre + S 0) by lia.
    replace (length pre + 2) with (length pre + S 1) by lia.
    replace (length pre + 3) with (length pre + S 2) by lia.
    rewrite !lookup_after_flag. cbn [lookup list_lookup].
    destruct i; [congruence|]. destruct o; [congruence|]. reflexivity.
  - intros pre after Hnot Hlen. unfold parseArgs.
    rewrite (arrayIndexOf_first _ pre _ Hnot).
    replace (length pre + 2) with (length pre + S 1) by lia.
    replace (length pre + 3) with (length pre + S 2) by lia.
    rewrite !lookup_after_flag.
    rewrite (lookup_ge_None_2 after 2) by lia.
    cbn [truthy negb]. now rewrite orb_true_r.
  - intros args cl. unfold parseArgs.
    destruct (truthy (match arrayIndexOf args (lit "--type") with
                      | Some i => args !! (i + 2) | None => args !! 0 end)) eqn:Hin;
      [|discriminate].
    destruct (truthy (match arrayIndexOf args (lit "--type") with
                      | Some i => args !! (i + 3) | None => args !! 1 end)) eqn:Hout;
      [|discriminate].
    cbn [negb orb]. intros H. injection H as <-. cbn [cl_docType cl_inputFile cl_outputFile].
    apply truthy_present in Hin as (fi & Hfi & Hnei).
    apply truthy_present in Hout as (fo & Hfo & Hneo).
    rewrite Hfi, Hfo. split; [|split; assumption].
    destruct (arrayIndexOf args (lit "--type")) as [i|]; [|now eexists].
    apply lookup_lt_is_Some. apply lookup_lt_Some in Hfi. lia.
Qed.

Lemma parseArgs_cases_witness :
  ~ In (lit "--type") [lit "old.json"] /\
  parseArgs [lit "old.json"; lit "--type"; lit "cv"; lit "in.json"; lit "out.docx"]
  = Some (mkCommandLine (Some (lit "cv")) (lit "in.json") (lit "out.docx")) /\
  parseArgs [lit "in.json"; lit "out.docx"; lit "--type"; lit "cv"] = None.
Proof.
  destruct parseArgs_cases as (_ & Hflag & Hshort & _).
  assert (~ In (lit "--type") [lit "old.json"]) as H1.
  { intros [H|[]]. discriminate H. }
  assert (~ In (lit "--type") [lit "in.json"; lit "out.docx"]) as H2.
  { intros [H|[H|[]]]; discriminate H. }
  split; [exact H1|]. split.
  - apply (Hflag [lit "old.json"] [] (lit "cv") (lit "in.json") (lit "out.docx") H1);
      discriminate.
  - apply (Hshort [lit "in.json"; lit "out.docx"] [lit "cv"] H2). cbn. lia.
Defined.

(** ** The body of a cover letter *)

Lemma splitParagraphs_not_nil (skipping : bool) (s : jsstring) :
  splitParagraphs skipping s <> [].
Proof.
  revert skipping. induction s as [|c s IH]; intros skipping; [discriminate|].
  cbn [splitParagraphs].
  destruct (N.eqb c NEWLINE && skipping); [apply IH|].
  destruct (N.eqb c NEWLINE && _); [discriminate|].
  destruct (splitParagraphs false s); discriminate.
Qed.

Lemma concat_split (sep : N) (s : jsstring) :
  concat (split sep s) = List.filter (fun c => negb (N.eqb c sep)) s.
Proof.
  induction s as [|c s IH]; [reflexivity|].
  cbn [split List.filter]. destruct (N.eqb c sep); cbn [negb].
  - exact IH.
  - pose proof (split_not_nil sep s) as Hne.
    destruct (split sep s) as [|p ps]; [congruence|].
    cbn [concat app] in *. now rewrite IH.
Qed.

Lemma splitParagraphs_units (s : jsstring) :
  forall skipping : bool,
    concat (flat_map (split NEWLINE) (splitParagraphs skipping s))
    = List.filter (fun c => negb (N.eqb c NEWLINE)) s.
Proof.
  induction s as [|c s IH]; intros skipping; [reflexivity|].
  cbn [splitParagraphs List.filter].
  destruct (N.eqb c NEWLINE && skipping) eqn:Hskip.
  { apply andb_true_iff in Hskip as [-> _]. cbn [negb]. apply IH. }
  destruct (N.eqb c NEWLINE && match s with d :: _ => N.eqb d NEWLINE | [] => false end)
    eqn:Hsep.
  { apply andb_true_iff in Hsep as [-> _]. cbn [negb flat_map split app]. apply IH. }
  pose proof (splitParagraphs_not_nil false s) as Hne.
  specialize (IH false).
  destruct (splitParagraphs false s) as [|p ps]; [congruence|].
  cbn [flat_map] in *. rewrite concat_app in *. rewrite concat_split in *.
  cbn [List.filter]. destruct (N.eqb c NEWLINE); cbn [negb app]; now rewrite IH.
Qed.

Lemma flat_map_lines (content : list jsstring) :
  flat_map (fun para => map bodyLine (split NEWLINE para)) content
  = map bodyLine (flat_map (split NEWLINE) content).
Proof.
  induction content as [|para content IH]; [reflexivity|].
  cbn [flat_map]. now rewrite map_app, IH.
Qed.

(** The document [generateCoverLetter] packs ends with one paragraph per
    line of [coverLetterLines]. *)
Lemma generateCoverLetter_body (data : Payload) :
  exists header : list Paragraph,
    forall (toBuffer : Document -> Result (list N)) (io : WriteOutcome)
           (outputPath : jsstring) (w : World),
      generateCoverLetter toBuffer io data outputPath w
      = (buffer <- liftResult
                     (toBuffer (mkDocument pageMargins
                                  (header ++ map bodyLine (coverLetterLines (d_content data))))) ;;
         _ <- writeFileSync io outputPath buffer ;;
         console_log (lit "Cover letter generated: " ++ outputPath)) w.
Proof.
  eexists. intros toBuffer io outputPath w.
  unfold generateCoverLetter, coverLetterLines. cbv zeta.
  rewrite <- flat_map_lines. unfold bodyLine. reflexivity.
Qed.

(** X17. The body of a cover letter loses no text: the document that is
    packed ends with one paragraph per body line; these lines, put together,
    are the content with the newlines removed; no line holds a newline; and
    there is at least one line, even for a missing content. *)
Theorem coverLetterLines_keep_text (data : Payload) :
  (exists header : list Paragraph,
      forall (toBuffer : Document -> Result (list N)) (io : WriteOutcome)
             (outputPath : jsstring) (w : World),
        generateCoverLetter toBuffer io data outputPath w
        = (buffer <- liftResult
                       (toBuffer (mkDocument pageMargins
                                    (header
                                     ++ map bodyLine (coverLetterLines (d_content data))))) ;;
           _ <- writeFileSync io outputPath buffer ;;
           console_log (lit "Cover letter generated: " ++ outputPath)) w) /\
  concat (coverLetterLines (d_content data))
  = List.filter (fun c => negb (N.eqb c NEWLINE)) (orElse (d_content data) []) /\
  Forall (fun line => noSep NEWLINE line = true) (coverLetterLines (d_content data)) /\
  coverLetterLines (d_content data) <> [].
Proof.
  split; [apply generateCoverLetter_body|].
  unfold coverLetterLines. split; [apply splitParagraphs_units|]. split.
  - apply List.Forall_flat_map. apply List.Forall_forall. intros para _.
    apply split_parts.
  - pose proof (splitParagraphs_not_nil false (orElse (d_content data) [])) as Hne.
    destruct (splitParagraphs false (orElse (d_content data) [])) as [|p ps]; [congruence|].
    cbn [flat_map]. pose proof (split_not_nil NEWLINE p) as Hp.
    destruct (split NEWLINE p); [congruence|discriminate].
Qed.

Example coverLetterLines_blank_lines :
  coverLetterLines (Some (lit "Dear team," ++ [NEWLINE; NEWLINE; NEWLINE]
                          ++ lit "I apply." ++ [NEWLINE] ++ lit "Regards"))
  = [lit "Dear team,"; lit "I apply."; lit "Regards"].
Proof. vm_compute. reflexivity. Qed.

(** ** The lines of the skills section *)

Lemma firstSeenGroups_categories (skills : list Skill) :
  map fst (firstSeenGroups skills) = firstSeen (map skillCategory skills).
Proof.
  unfold firstSeenGroups. rewrite map_map. cbn [fst]. apply map_id.
Qed.

Lemma firstSeenGroups_entry (skills : list Skill) (cat : jsstring) (names : list jsstring) :
  In (cat, names) (firstSeenGroups skills) ->
  names = namesIn cat skills /\ In cat (map skillCategory skills).
Proof.
  unfold firstSeenGroups. rewrite in_map_iff. intros (c & Heq & Hc).
  injection Heq as <- <-. split; [reflexivity|]. now apply firstSeen_In.
Qed.

Lemma namesIn_present (cat : jsstring) (skills : list Skill) :
  In cat (map skillCategory skills) -> namesIn cat skills <> [].
Proof.
  unfold namesIn. rewrite in_map_iff. intros (sk & Hcat & Hin) Hnil.
  apply map_eq_nil in Hnil.
  assert (In sk (List.filter (fun sk => bool_decide (skillCategory sk = cat)) skills)) as H.
  { apply filter_In. split; [exact Hin|]. now apply bool_decide_eq_true_2. }
  now rewrite Hnil in H.
Qed.

(** X19. When no category names a property inherited from
    [Object.prototype], the skills section has exactly one line per distinct
    category of the input (a missing category counting as "Other"): no
    category is listed twice, every category of the input is listed, and each
    line lists, in input order, exactly the names of the skills of its
    category, so no line is empty. *)
Theorem buildSkills_lines (skills : list Skill) :
  skills <> [] ->
  ordinaryCategories skills = true ->
  exists entries,
    buildSkills skills = Ok (skillsSection entries) /\
    List.NoDup (map fst entries) /\
    (forall cat, In cat (map fst entries) <-> In cat (map skillCategory skills)) /\
    (forall cat names, In (cat, names) entries ->
                       names = namesIn cat skills /\ names <> []).
Proof.
  intros Hne Hord. exists (Object_entries (firstSeenGroups skills)).
  pose proof (Object_entries_perm (firstSeenGroups skills)) as Hperm.
  split; [|split; [|split]].
  - unfold buildSkills. rewrite (groupSkills_firstSeen skills Hord).
    destruct skills; [congruence|reflexivity].
  - apply (Permutation_NoDup (Permutation_map fst (Permutation_sym Hperm))).
    rewrite firstSeenGroups_categories. apply firstSeen_NoDup.
  - intros cat. rewrite <- (firstSeen_In cat (map skillCategory skills)).
    rewrite <- firstSeenGroups_categories.
    split; apply Permutation_in; [|symmetry]; now apply Permutation_map.
  - intros cat names Hin. apply (Permutation_in _ Hperm) in Hin.
    apply firstSeenGroups_entry in Hin as [-> Hcat].
    split; [reflexivity|now apply namesIn_present].
Qed.

Lemma buildSkills_lines_witness :
  demoSkills <> [] /\ ordinaryCategories demoSkills = true /\
  exists entries,
    buildSkills demoSkills = Ok (skillsSection entries) /\
    List.NoDup (map fst entries) /\
    (forall cat names, In (cat, names) entries ->
                       names = namesIn cat demoSkills /\ names <> []).
Proof.
  assert (demoSkills <> []) as Hne by discriminate.
  split; [exact Hne|]. split; [reflexivity|].
  destruct (buildSkills_lines demoSkills Hne eq_refl) as (entries & H1 & H2 & _ & H4).
  exists entries. split; [exact H1|]. split; [exact H2|exact H4].
Defined.

Lemma run_touches_only_output_witness :
  notesPath <> outputDocx /\
  files (run toLowerCaseASCII toyPacker (WriteFailsAfter 2 diskFull) (lit "resume")
           emptyPayload outputDocx worldWithNotes).2 !! notesPath
  = files worldWithNotes !! notesPath.
Proof.
  assert (notesPath <> outputDocx) as Hne by discriminate.
  split; [exact Hne|].
  exact (run_touches_only_output toLowerCaseASCII toyPacker (WriteFailsAfter 2 diskFull)
           (lit "resume") emptyPayload outputDocx notesPath worldWithNotes Hne).
Defined.

(** ** Calls that share the module's arrays *)

Section SharedArrays.
Variable toLowerCase : jsstring -> jsstring.

Lemma moduleStore_intact : moduleIntact moduleStore.
Proof.
  unfold moduleIntact, moduleStore. cbn [arrays nextRef]. split; [|split; [|lia]].
  - apply lookup_insert_eq.
  - rewrite lookup_insert_ne by discriminate. apply lookup_insert_eq.
Qed.

Lemma moduleIntact_readArray (s : Store) :
  moduleIntact s ->
  readArray PRIORITY_BOLD_ref s = PRIORITY_BOLD /\
  readArray SKIP_LEADERSHIP_STARTS_ref s = SKIP_LEADERSHIP_STARTS.
Proof. intros (Hp & Hs & _). unfold readArray. now rewrite Hp, Hs. Qed.

(** A call either leaves the store as it is, or allocates one array, the
    filtered terms, and sorts that array. *)
Lemma call_store (text_ : option jsstring) (matchedKeywords maxBolds_ : option nat)
    (s : Store) :
  (splitBulletWithBolds_store toLowerCase text_ matchedKeywords maxBolds_ s).2 = s \/
  exists l l',
    (splitBulletWithBolds_store toLowerCase text_ matchedKeywords maxBolds_ s).2
    = mkStore (<[nextRef s := l']> (<[nextRef s := l]> (arrays s))) (S (nextRef s)).
Proof.
  unfold splitBulletWithBolds_store.
  destruct text_ as [[|c t]|]; [now left| |now left].
  destruct (existsb _ _); [now left|].
  right. unfold Array_filter, Array_sort, newArray. cbv beta iota zeta.
  cbn [snd arrays nextRef]. eexists. eexists. reflexivity.
Qed.

Lemma call_frame (text_ : option jsstring) (matchedKeywords maxBolds_ : option nat)
    (s : Store) (r : nat) :
  r < nextRef s ->
  arrays (splitBulletWithBolds_store toLowerCase text_ matchedKeywords maxBolds_ s).2 !! r
  = arrays s !! r.
Proof.
  intros Hr.
  destruct (call_store text_ matchedKeywords maxBolds_ s) as [->|(l & l' & ->)];
    [reflexivity|].
  cbn [arrays]. rewrite !lookup_insert_ne by lia. reflexivity.
Qed.

Lemma call_intact (text_ : option jsstring) (matchedKeywords maxBolds_ : option nat)
    (s : Store) :
  moduleIntact s ->
  moduleIntact (splitBulletWithBolds_store toLowerCase text_ matchedKeywords maxBolds_ s).2.
Proof.
  intros (Hp & Hs & Hn). unfold moduleIntact.
  rewrite !call_frame by (unfold PRIORITY_BOLD_ref, SKIP_LEADERSHIP_STARTS_ref; lia).
  split; [exact Hp|]. split; [exact Hs|].
  destruct (call_store text_ matchedKeywords maxBolds_ s) as [->|(l & l' & ->)];
    cbn [nextRef]; lia.
Qed.

Lemma newArray_intact (l : list jsstring) (s : Store) :
  moduleIntact s -> moduleIntact (newArray l s).2.
Proof.
  intros (Hp & Hs & Hn). unfold moduleIntact, newArray. cbn [snd arrays nextRef].
  rewrite !lookup_insert_ne
    by (unfold PRIORITY_BOLD_ref, SKIP_LEADERSHIP_STARTS_ref; lia).
  split; [exact Hp|]. split; [exact Hs|lia].
Qed.

Lemma Reachable_intact (s : Store) : Reachable toLowerCase s -> moduleIntact s.
Proof.
  induction 1 as [|l s _ IH|text_ kws max s _ IH].
  - exact moduleStore_intact.
  - now apply newArray_intact.
  - now apply call_intact.
Qed.

(** On a store whose module arrays are intact, the call returns what the
    function of the bullet, the contents of the keyword array and the maximum
    returns. *)
Lemma call_result (text_ : option jsstring) (matchedKeywords maxBolds_ : option nat)
    (s : Store) :
  moduleIntact s ->
  (splitBulletWithBolds_store toLowerCase text_ matchedKeywords maxBolds_ s).1
  = splitBulletWithBolds toLowerCase text_
      (option_map (fun r => readArray r s) matchedKeywords) maxBolds_.
Proof.
  intros Hintact. destruct (moduleIntact_readArray s Hintact) as [Hp Hs].
  unfold splitBulletWithBolds_store, splitBulletWithBolds.
  destruct text_ as [[|c t]|]; [reflexivity| |reflexivity].
  rewrite Hs.
  destruct (existsb (startsWith (trim (c :: t))) SKIP_LEADERSHIP_STARTS); [reflexivity|].
  unfold Array_filter, Array_sort, newArray. cbv beta iota zeta. cbn [fst].
  rewrite Hp. unfold readArray at 1. cbn [arrays].
  rewrite lookup_insert_eq. cbn [default from_option id].
  unfold readArray at 1. cbn [arrays]. rewrite lookup_insert_eq. reflexivity.
Qed.

(** C8. Two calls with identical bullet text, keyword arrays of identical
    contents and the same maximum return identical span lists (same texts,
    same order, same emphasis flags), in whatever two states of the program
    they are made: a call reads the module's arrays and the keyword array,
    sorts only the array it has just obtained from [filter], and changes no
    array that existed before it; its result is a function of the bullet
    text, the keyword contents and the maximum. *)
Theorem splitBulletWithBolds_deterministic
    (s1 s2 : Store) (bulletText : option jsstring) (keywords1 keywords2 : option nat)
    (maxSpans : option nat) :
  Reachable toLowerCase s1 -> Reachable toLowerCase s2 ->
  option_map (fun r => readArray r s1) keywords1
  = option_map (fun r => readArray r s2) keywords2 ->
  (splitBulletWithBolds_store toLowerCase bulletText keywords1 maxSpans s1).1
  = (splitBulletWithBolds_store toLowerCase bulletText keywords2 maxSpans s2).1 /\
  (splitBulletWithBolds_store toLowerCase bulletText keywords1 maxSpans s1).1
  = splitBulletWithBolds toLowerCase bulletText
      (option_map (fun r => readArray r s1) keywords1) maxSpans /\
  (forall r, r < nextRef s1 ->
     arrays (splitBulletWithBolds_store toLowerCase bulletText keywords1 maxSpans s1).2 !! r
     = arrays s1 !! r).
Proof.
  intros Hr1 Hr2 Hsame.
  pose proof (call_result bulletText keywords1 maxSpans s1 (Reachable_intact s1 Hr1)) as H1.
  pose proof (call_result bulletText keywords2 maxSpans s2 (Reachable_intact s2 Hr2)) as H2.
  split; [|split].
  - rewrite H1, H2, Hsame. reflexivity.
  - exact H1.
  - intros r Hlt. now apply call_frame.
Qed.

End SharedArrays.

Lemma splitBulletWithBolds_deterministic_witness :
  Reachable toLowerCaseASCII storeBefore /\
  Reachable toLowerCaseASCII storeAfter /\
  option_map (fun r => readArray r storeBefore) (Some 2)
  = option_map (fun r => readArray r storeAfter) (Some 4) /\
  storeBefore <> storeAfter /\
  (splitBulletWithBolds_store toLowerCaseASCII (Some etlBullet) (Some 2) None storeBefore).1
  = (splitBulletWithBolds_store toLowerCaseASCII (Some etlBullet) (Some 4) None storeAfter).1.
Proof.
  assert (Reachable toLowerCaseASCII storeBefore) as H1.
  { apply reach_array. apply reach_module. }
  assert (Reachable toLowerCaseASCII storeAfter) as H2.
  { apply reach_array. apply reach_call. exact H1. }
  assert (option_map (fun r => readArray r storeBefore) (Some 2)
          = option_map (fun r => readArray r storeAfter) (Some 4)) as Hsame.
  { vm_compute. reflexivity. }
  split; [exact H1|]. split; [exact H2|]. split; [exact Hsame|]. split.
  - intros Heq. apply (f_equal nextRef) in Heq. vm_compute in Heq. discriminate Heq.
  - exact (proj1 (splitBulletWithBolds_deterministic toLowerCaseASCII storeBefore storeAfter
                    (Some etlBullet) (Some 2) (Some 4) None H1 H2 Hsame)).
Defined.
